(** * count-loc: logging, report rendering and the counting core

    A shallow embedding of [logger.go] and of the report printer
    ([PrintResults], [PrintErrors], [FormatNumber], ...), followed by a model
    of the line classifier, the file counter, the worker pool and the
    aggregator as the design document describes them. *)

From Stdlib Require Import ZArith List String Ascii Lia Bool.
From Stdlib Require Import DecimalString DecimalPos DecimalZ ZifyNat.
From stdpp Require Import base gmap strings list fin_maps sorting.

Local Open Scope string_scope.
Local Open Scope list_scope.
Local Open Scope Z_scope.

(** ** Go's [int] and [fmt] verbs *)

Module GoInt.

(** Go's [int] on a 64-bit host: two's complement wrap-around. *)
Definition wrap_int (z : Z) : Z := (z + 2 ^ 63) mod 2 ^ 64 - 2 ^ 63.

Definition in_int (z : Z) : Prop := - 2 ^ 63 <= z < 2 ^ 63.

(** [x++] on an [int]. *)
Definition incr (z : Z) : Z := wrap_int (z + 1).

(** The verb [%d]: the decimal digits, with a minus sign when negative. *)
Definition fmt_d (z : Z) : string := NilZero.string_of_int (Z.to_int z).

End GoInt.

(** ** logger.go *)

Module Logger.
Import GoInt.

(** [type LogLevel int] with the [iota] constants. *)
Definition LogLevel := Z.
Definition LogLevelDebug : LogLevel := 0.
Definition LogLevelInfo : LogLevel := 1.
Definition LogLevelWarn : LogLevel := 2.
Definition LogLevelError : LogLevel := 3.
Definition LogLevelSilent : LogLevel := 4.

(** The [Logger] struct.  The two [*log.Logger] fields are modelled by the
    records written to their writers so far (prefix [""], flags [0]: one
    record per [Printf], the formatted message).  The mutex makes every
    method one atomic step, so a method is a function on the state. *)
Record Logger := mkLogger {
  level : LogLevel;
  logger : list string;
  errorLog : list string;
  errorCount : Z;
  warnCount : Z
}.

(** [NewLogger(level, out, errOut)] over two fresh writers. *)
Definition NewLogger (lv : LogLevel) : Logger :=
  {| level := lv; logger := []; errorLog := []; errorCount := 0; warnCount := 0 |}.

Definition SetLevel (lv : LogLevel) (l : Logger) : Logger :=
  {| level := lv; logger := logger l; errorLog := errorLog l;
     errorCount := errorCount l; warnCount := warnCount l |}.

(** The methods take the message [Sprintf(format, args...)]: the tag holds
    no verb, so [Printf("[DEBUG] "+format, args...)] writes the tag followed
    by that message. *)
Definition Debug (msg : string) (l : Logger) : Logger :=
  if level l <=? LogLevelDebug then
    {| level := level l; logger := logger l ++ ["[DEBUG] " +:+ msg];
       errorLog := errorLog l; errorCount := errorCount l; warnCount := warnCount l |}
  else l.

Definition Info (msg : string) (l : Logger) : Logger :=
  if level l <=? LogLevelInfo then
    {| level := level l; logger := logger l ++ ["[INFO] " +:+ msg];
       errorLog := errorLog l; errorCount := errorCount l; warnCount := warnCount l |}
  else l.

Definition Warn (msg : string) (l : Logger) : Logger :=
  if level l <=? LogLevelWarn then
    {| level := level l; logger := logger l ++ ["[WARN] " +:+ msg];
       errorLog := errorLog l; errorCount := errorCount l;
       warnCount := incr (warnCount l) |}
  else l.

Definition Error (msg : string) (l : Logger) : Logger :=
  if level l <=? LogLevelError then
    {| level := level l; logger := logger l;
       errorLog := errorLog l ++ ["[ERROR] " +:+ msg];
       errorCount := incr (errorCount l); warnCount := warnCount l |}
  else l.

Definition GetErrorCount (l : Logger) : Z := errorCount l.
Definition GetWarnCount (l : Logger) : Z := warnCount l.

(** Package-level functions: the state is the default logger. *)
Definition SetLogLevel := SetLevel.
Definition LogDebug := Debug.
Definition LogInfo := Info.
Definition LogWarn := Warn.
Definition LogError := Error.

Section Errors.

(** Go's [error] values, [os.IsPermission] and the text [%v] prints for an
    error belong to the Go runtime; they are parameters here. *)
Variable error : Type.
Variable os_IsPermission : error -> bool.
Variable fmt_v : error -> string.

Definition IsPermissionError (err : error) : bool := os_IsPermission err.

Definition LogFileError (filePath : string) (err : error) (dl : Logger) : Logger :=
  if IsPermissionError err then
    LogWarn ("Permission denied: " +:+ filePath) dl
  else
    LogError ("Failed to process file " +:+ filePath +:+ ": " +:+ fmt_v err) dl.

Definition LogDirectoryError (dirPath : string) (err : error) (dl : Logger) : Logger :=
  if IsPermissionError err then
    LogWarn ("Permission denied for directory: " +:+ dirPath) dl
  else
    LogError ("Failed to process directory " +:+ dirPath +:+ ": " +:+ fmt_v err) dl.

End Errors.

(** A few of Go's errors, for examples: [os.ErrPermission], [os.ErrNotExist]
    and an error wrapped with its operation and path, as [os.Open] returns
    it; [os.IsPermission] looks through the wrapper. *)
Inductive sample_error :=
| ErrPermission
| ErrNotExist
| PathError (op p : string) (err : sample_error).

Fixpoint sample_IsPermission (e : sample_error) : bool :=
  match e with
  | ErrPermission => true
  | ErrNotExist => false
  | PathError _ _ err => sample_IsPermission err
  end.

Fixpoint sample_Error (e : sample_error) : string :=
  match e with
  | ErrPermission => "permission denied"
  | ErrNotExist => "file does not exist"
  | PathError op p err => op +:+ " " +:+ p +:+ ": " +:+ sample_Error err
  end.

(** The effect of a warning, and of an error, that gets through. *)
Definition logs_warning (msg : string) (l l' : Logger) : Prop :=
  l' = {| level := level l; logger := logger l ++ ["[WARN] " +:+ msg];
          errorLog := errorLog l; errorCount := errorCount l;
          warnCount := incr (warnCount l) |}.

Definition logs_error (msg : string) (l l' : Logger) : Prop :=
  l' = {| level := level l; logger := logger l;
          errorLog := errorLog l ++ ["[ERROR] " +:+ msg];
          errorCount := incr (errorCount l); warnCount := warnCount l |}.

(** A sequence of calls on one logger, for the tallies. *)
Inductive Severity := SevDebug | SevInfo | SevWarn | SevError.

Definition severity (k : Severity) : LogLevel :=
  match k with
  | SevDebug => LogLevelDebug
  | SevInfo => LogLevelInfo
  | SevWarn => LogLevelWarn
  | SevError => LogLevelError
  end.

Definition log (k : Severity) (msg : string) (l : Logger) : Logger :=
  match k with
  | SevDebug => Debug msg l
  | SevInfo => Info msg l
  | SevWarn => Warn msg l
  | SevError => Error msg l
  end.

Inductive Call :=
| CallLog (k : Severity) (msg : string)
| CallSetLevel (lv : LogLevel).

Definition call (c : Call) (l : Logger) : Logger :=
  match c with
  | CallLog k msg => log k msg l
  | CallSetLevel lv => SetLevel lv l
  end.

Definition run (cs : list Call) (l : Logger) : Logger :=
  fold_left (fun st c => call c st) cs l.

(** What a call of severity [k] writes, and where. *)
Definition tag (k : Severity) : string :=
  match k with
  | SevDebug => "[DEBUG] "
  | SevInfo => "[INFO] "
  | SevWarn => "[WARN] "
  | SevError => "[ERROR] "
  end.

(** The records of both writers, [out] first. *)
Definition written (l : Logger) : list string * list string :=
  (logger l, errorLog l).

Definition written_after (k : Severity) (msg : string) (l : Logger)
  : list string * list string :=
  match k with
  | SevError => (logger l, errorLog l ++ [tag k +:+ msg])
  | _ => (logger l ++ [tag k +:+ msg], errorLog l)
  end.

Definition is_warn_record (r : string) : bool := String.prefix "[WARN] " r.
Definition is_error_record (r : string) : bool := String.prefix "[ERROR] " r.

Definition emitted_warnings (l : Logger) : Z :=
  Z.of_nat (length (filter (fun r => is_warn_record r = true) (logger l))).
Definition emitted_errors (l : Logger) : Z :=
  Z.of_nat (length (filter (fun r => is_error_record r = true) (errorLog l))).

(** The tallies count the records written. *)
Definition tallies_match (l : Logger) : Prop :=
  GetWarnCount l = wrap_int (emitted_warnings l)
  /\ GetErrorCount l = wrap_int (emitted_errors l).

End Logger.

(** ** The report printer *)

Module Output.
Import GoInt.

(** Table formatting constants. *)
Definition colLanguage : Z := 20.
Definition colFiles : Z := 10.
Definition colBlank : Z := 12.
Definition colComment : Z := 12.
Definition colCode : Z := 12.
Definition colTotal : Z := 12.

(** The fields of [LanguageStats] the printer reads. *)
Record LanguageStats := mkLanguageStats {
  Language : string;
  FileCount : Z;
  BlankLines : Z;
  CommentLines : Z;
  CodeLines : Z;
  TotalLines : Z
}.

(** Text written to standard output is the value a printing function
    returns; strings are sequences of bytes, taken as ASCII where [fmt]
    counts runes for a width. *)
Definition nl : string := String "010"%char EmptyString.
Definition dq : string := String "034"%char EmptyString.

Definition len (s : string) : Z := Z.of_nat (String.length s).

(** [strings.Repeat]. *)
Fixpoint Repeat (s : string) (count : nat) : string :=
  match count with
  | O => EmptyString
  | S k => s +:+ Repeat s k
  end.

(** [%*s] and [%*d]: right-justified in the width; [%-*s]: left-justified. *)
Definition pad_left (w : Z) (s : string) : string :=
  Repeat " " (Z.to_nat (w - len s)) +:+ s.
Definition pad_right (w : Z) (s : string) : string :=
  s +:+ Repeat " " (Z.to_nat (w - len s)).

Definition printSeparator : string :=
  let totalWidth := colLanguage + colFiles + colBlank + colComment + colCode + colTotal + 5 in
  Repeat "-" (Z.to_nat totalWidth) +:+ nl.

Definition header_line : string :=
  pad_right colLanguage "Language" +:+ " " +:+ pad_left colFiles "Files" +:+ " "
  +:+ pad_left colBlank "Blank" +:+ " " +:+ pad_left colComment "Comment" +:+ " "
  +:+ pad_left colCode "Code" +:+ " " +:+ pad_left colTotal "Total" +:+ nl.

Definition printHeader : string :=
  nl +:+ printSeparator +:+ header_line +:+ printSeparator.

(** [language[:colLanguage-3]] and three dots when the name is too long. *)
Definition truncate (language : string) : string :=
  if len language >? colLanguage
  then substring 0 (Z.to_nat (colLanguage - 3)) language +:+ "..."
  else language.

Definition printRow (language : string) (files blank comment code total : Z) : string :=
  let language := truncate language in
  pad_right colLanguage language +:+ " " +:+ pad_left colFiles (fmt_d files) +:+ " "
  +:+ pad_left colBlank (fmt_d blank) +:+ " " +:+ pad_left colComment (fmt_d comment) +:+ " "
  +:+ pad_left colCode (fmt_d code) +:+ " " +:+ pad_left colTotal (fmt_d total) +:+ nl.

Definition printFooter (processedFiles skippedFiles errorCount : Z) : string :=
  printSeparator +:+ nl
  +:+ "Summary:" +:+ nl
  +:+ "  Files processed: " +:+ fmt_d processedFiles +:+ nl
  +:+ "  Files skipped:   " +:+ fmt_d skippedFiles +:+ nl
  +:+ (if errorCount >? 0 then "  Errors:          " +:+ fmt_d errorCount +:+ nl
       else EmptyString)
  +:+ nl.

(** [FormatNumber]: the loop ranges over the digits with their index. *)
Fixpoint FormatNumber_loop (length i : Z) (str : string) : string :=
  match str with
  | EmptyString => EmptyString
  | String char rest =>
      let written := String char (FormatNumber_loop length (i + 1) rest) in
      if (i >? 0) && (Z.rem (length - i) 3 =? 0) then String "," written else written
  end.

Definition FormatNumber (n : Z) : string :=
  if n <? 1000 then fmt_d n
  else
    let str := fmt_d n in
    FormatNumber_loop (len str) 0 str.

Section Errors.

Variable error : Type.
Variable fmt_v : error -> string.

(** The loop of [PrintErrors]: [n] is [len(errors)], [i] the index; the
    summary line ends the loop. *)
Fixpoint PrintErrors_loop (n i : Z) (errs : list error) : string :=
  match errs with
  | [] => EmptyString
  | err :: rest =>
      if i >=? 10 then "  ... and " +:+ fmt_d (n - 10) +:+ " more errors" +:+ nl
      else "  - " +:+ fmt_v err +:+ nl +:+ PrintErrors_loop n (i + 1) rest
  end.

Definition PrintErrors (errors : list error) : string :=
  if Z.of_nat (length errors) =? 0 then EmptyString
  else
    nl +:+ "Errors encountered:" +:+ nl
    +:+ PrintErrors_loop (Z.of_nat (length errors)) 0 errors
    +:+ nl.

(** The report of errors as the design describes it: the first entries in
    order, then one line for the rest. *)
Definition detailed_entry (err : error) : string := "  - " +:+ fmt_v err +:+ nl.
Definition summary_line (remaining : Z) : string :=
  "  ... and " +:+ fmt_d remaining +:+ " more errors" +:+ nl.
Definition concat_lines (ls : list string) : string :=
  fold_right String.append EmptyString ls.

Definition PrintErrors_capped (errors : list error) : string :=
  match errors with
  | [] => EmptyString
  | _ =>
      nl +:+ "Errors encountered:" +:+ nl
      +:+ concat_lines (map detailed_entry (take 10 errors))
      +:+ (if (10 <? length errors)%nat
           then summary_line (Z.of_nat (length errors) - 10) else EmptyString)
      +:+ nl
  end.

End Errors.

Definition PrintCompact (total : LanguageStats) : string :=
  "Files: " +:+ fmt_d (FileCount total) +:+ " | Blank: " +:+ fmt_d (BlankLines total)
  +:+ " | Comment: " +:+ fmt_d (CommentLines total) +:+ " | Code: " +:+ fmt_d (CodeLines total)
  +:+ " | Total: " +:+ fmt_d (TotalLines total) +:+ nl.

(** The row a table prints for one language. *)
Definition row (stats : LanguageStats) : string :=
  printRow (Language stats) (FileCount stats) (BlankLines stats)
           (CommentLines stats) (CodeLines stats) (TotalLines stats).

Definition formatted_line (language : string) (stats : LanguageStats) : string :=
  pad_right colLanguage language +:+ " "
  +:+ pad_left colFiles (FormatNumber (FileCount stats)) +:+ " "
  +:+ pad_left colBlank (FormatNumber (BlankLines stats)) +:+ " "
  +:+ pad_left colComment (FormatNumber (CommentLines stats)) +:+ " "
  +:+ pad_left colCode (FormatNumber (CodeLines stats)) +:+ " "
  +:+ pad_left colTotal (FormatNumber (TotalLines stats)) +:+ nl.

Definition formatted_row (stats : LanguageStats) : string :=
  formatted_line (truncate (Language stats)) stats.

Definition json_fields (stats : LanguageStats) : string :=
  "{" +:+ dq +:+ "files" +:+ dq +:+ ": " +:+ fmt_d (FileCount stats)
  +:+ ", " +:+ dq +:+ "blank" +:+ dq +:+ ": " +:+ fmt_d (BlankLines stats)
  +:+ ", " +:+ dq +:+ "comment" +:+ dq +:+ ": " +:+ fmt_d (CommentLines stats)
  +:+ ", " +:+ dq +:+ "code" +:+ dq +:+ ": " +:+ fmt_d (CodeLines stats)
  +:+ ", " +:+ dq +:+ "total" +:+ dq +:+ ": " +:+ fmt_d (TotalLines stats) +:+ "}".

Definition json_entry (stats : LanguageStats) (comma : string) : string :=
  "    " +:+ dq +:+ Language stats +:+ dq +:+ ": " +:+ json_fields stats +:+ comma +:+ nl.

Section Tables.

(** [sort.Slice] belongs to the Go library: a parameter.  It sorts the slice
    it is given with the [less] closure, which compares the elements at two
    indices of that slice. *)
Variable sort_Slice : forall A : Type, (A -> A -> bool) -> list A -> list A.

(** [langStats[lang].CodeLines] and the like.  The languages looked up are
    keys of the map; on any other key Go dereferences nil. *)
Definition field_of (langStats : gmap string LanguageStats)
    (field : LanguageStats -> Z) (lang : string) : Z :=
  match langStats !! lang with
  | Some stats => field stats
  | None => 0
  end.

(** Go visits the keys of a map in an unspecified order, which may differ
    from one [range] to the next: [visit] is the order of this one. *)
Definition sortLanguagesByCode (langStats : gmap string LanguageStats)
    (visit : list string) : list string :=
  let langs := visit in
  sort_Slice string
    (fun a b => field_of langStats CodeLines a >? field_of langStats CodeLines b) langs.

(** [for _, lang := range langs { stats := langStats[lang]; print(stats...) }];
    [None] is the nil dereference. *)
Fixpoint print_rows (render : LanguageStats -> string)
    (langStats : gmap string LanguageStats) (langs : list string) : option string :=
  match langs with
  | [] => Some EmptyString
  | lang :: rest =>
      stats ← langStats !! lang;
      out ← print_rows render langStats rest;
      Some (render stats +:+ out)
  end.

Definition PrintResults (langStats : gmap string LanguageStats) (visit : list string)
    (total : LanguageStats) (processedFiles skippedFiles errorCount : Z) : option string :=
  let sortedLangs := sortLanguagesByCode langStats visit in
  rows ← print_rows row langStats sortedLangs;
  Some (printHeader +:+ rows +:+ printSeparator
        +:+ printRow "Total" (FileCount total) (BlankLines total) (CommentLines total)
                     (CodeLines total) (TotalLines total)
        +:+ printFooter processedFiles skippedFiles errorCount).

Fixpoint PrintJSON_loop (langStats : gmap string LanguageStats) (n i : Z)
    (langs : list string) : option string :=
  match langs with
  | [] => Some EmptyString
  | lang :: rest =>
      stats ← langStats !! lang;
      let comma := if i =? n - 1 then EmptyString else "," in
      out ← PrintJSON_loop langStats n (i + 1) rest;
      Some (json_entry stats comma +:+ out)
  end.

Definition PrintJSON (langStats : gmap string LanguageStats) (visit : list string)
    (total : LanguageStats) : option string :=
  let sortedLangs := sortLanguagesByCode langStats visit in
  rows ← PrintJSON_loop langStats (Z.of_nat (length sortedLangs)) 0 sortedLangs;
  Some ("{" +:+ nl
        +:+ "  " +:+ dq +:+ "languages" +:+ dq +:+ ": {" +:+ nl
        +:+ rows
        +:+ "  }," +:+ nl
        +:+ "  " +:+ dq +:+ "total" +:+ dq +:+ ": " +:+ json_fields total +:+ nl
        +:+ "}" +:+ nl).

Definition PrintByFiles (langStats : gmap string LanguageStats) (visit : list string)
    (total : LanguageStats) (processedFiles skippedFiles errorCount : Z) : option string :=
  let langs := visit in
  let langs :=
    sort_Slice string
      (fun a b => field_of langStats FileCount a >? field_of langStats FileCount b) langs in
  rows ← print_rows row langStats langs;
  Some (printHeader +:+ rows +:+ printSeparator
        +:+ printRow "Total" (FileCount total) (BlankLines total) (CommentLines total)
                     (CodeLines total) (TotalLines total)
        +:+ printFooter processedFiles skippedFiles errorCount).

Definition PrintResultsFormatted (langStats : gmap string LanguageStats)
    (visit : list string) (total : LanguageStats)
    (processedFiles skippedFiles errorCount : Z) : option string :=
  let sortedLangs := sortLanguagesByCode langStats visit in
  rows ← print_rows formatted_row langStats sortedLangs;
  Some (nl +:+ printSeparator +:+ header_line +:+ printSeparator
        +:+ rows +:+ printSeparator
        +:+ formatted_line "Total" total
        +:+ printFooter processedFiles skippedFiles errorCount).

End Tables.

(** [strings.Contains], and the occurrence of one character, for statements
    about the text printed. *)
Fixpoint Contains (s substr : string) : bool :=
  String.prefix substr s
  || match s with
     | EmptyString => false
     | String _ rest => Contains rest substr
     end.

Fixpoint occurs (c : ascii) (s : string) : bool :=
  match s with
  | EmptyString => false
  | String a rest => Ascii.eqb c a || occurs c rest
  end.

Definition is_digit (c : ascii) : bool :=
  let n := nat_of_ascii c in (48 <=? n)%nat && (n <=? 57)%nat.

Fixpoint remove_commas (s : string) : string :=
  match s with
  | EmptyString => EmptyString
  | String c rest =>
      if Ascii.eqb c "," then remove_commas rest else String c (remove_commas rest)
  end.

(** Counted from the rightmost character, place 0, the commas of [s] are
    exactly at the places 3, 7, 11, ... *)
Definition commas_every_fourth (s : string) : Prop :=
  forall k : nat, (k < String.length s)%nat ->
    (String.get (String.length s - 1 - k) s = Some ","%char <-> (k mod 4 = 3)%nat).

(** The three lines of the footer that carry a count. *)
Definition processed_line (n : Z) : string := "  Files processed: " +:+ fmt_d n +:+ nl.
Definition skipped_line (n : Z) : string := "  Files skipped:   " +:+ fmt_d n +:+ nl.
Definition errors_line (n : Z) : string := "  Errors:          " +:+ fmt_d n +:+ nl.

(** What [sort.Slice] promises.  [less] has to be a strict weak ordering:
    irreflexive, transitive, and with a transitive complement.  The slice is
    then permuted so that no element is less than the one before it. *)
Definition strict_weak_order {A : Type} (less : A -> A -> bool) : Prop :=
  (forall a, less a a = false)
  /\ (forall a b c, less a b = true -> less b c = true -> less a c = true)
  /\ (forall a b c, less a b = false -> less b c = false -> less a c = false).

Definition sort_contract
    (sort_Slice : forall A : Type, (A -> A -> bool) -> list A -> list A) : Prop :=
  forall (A : Type) (less : A -> A -> bool) (l : list A),
    strict_weak_order less ->
    sort_Slice A less l ≡ₚ l
    /\ Sorted (fun a b => less b a = false) (sort_Slice A less l).

(** Rows in non-increasing order of a field: each row has at least the value
    of every row after it. *)
Definition non_increasing (field : LanguageStats -> Z) (rows : list LanguageStats) : Prop :=
  StronglySorted (fun a b => field b <= field a) rows.

(** The entries of the JSON object, the last one without a comma. *)
Fixpoint json_entries (rows : list LanguageStats) : string :=
  match rows with
  | [] => EmptyString
  | stats :: rest =>
      match rest with
      | [] => json_entry stats EmptyString
      | _ => json_entry stats "," +:+ json_entries rest
      end
  end.

(** The texts of the four reports for rows already put in order. *)
Definition table_of (rows : list LanguageStats) (total : LanguageStats)
    (processedFiles skippedFiles errorCount : Z) : string :=
  printHeader +:+ concat_lines (map row rows) +:+ printSeparator
  +:+ printRow "Total" (FileCount total) (BlankLines total) (CommentLines total)
               (CodeLines total) (TotalLines total)
  +:+ printFooter processedFiles skippedFiles errorCount.

Definition formatted_table_of (rows : list LanguageStats) (total : LanguageStats)
    (processedFiles skippedFiles errorCount : Z) : string :=
  nl +:+ printSeparator +:+ header_line +:+ printSeparator
  +:+ concat_lines (map formatted_row rows) +:+ printSeparator
  +:+ formatted_line "Total" total
  +:+ printFooter processedFiles skippedFiles errorCount.

Definition json_of (rows : list LanguageStats) (total : LanguageStats) : string :=
  "{" +:+ nl
  +:+ "  " +:+ dq +:+ "languages" +:+ dq +:+ ": {" +:+ nl
  +:+ json_entries rows
  +:+ "  }," +:+ nl
  +:+ "  " +:+ dq +:+ "total" +:+ dq +:+ ": " +:+ json_fields total +:+ nl
  +:+ "}" +:+ nl.

(** The statistics of the languages of a map, in the order of [langs]. *)
Definition rows_of (langStats : gmap string LanguageStats) (langs : list string)
  : list LanguageStats :=
  omap (fun lang => langStats !! lang) langs.

(** A report lists every language of the map once, in non-increasing order
    of [field]. *)
Definition lists_sorted_by (field : LanguageStats -> Z)
    (langStats : gmap string LanguageStats) (report : list LanguageStats -> string)
    (printed : option string) : Prop :=
  exists rows : list LanguageStats,
    rows ≡ₚ (map_to_list langStats).*2
    /\ non_increasing field rows
    /\ printed = Some (report rows).

(** An insertion sort, one function that meets the contract of
    [sort.Slice]; it instantiates the parameter in examples. *)
Fixpoint insert_sorted {A : Type} (less : A -> A -> bool) (x : A) (l : list A) : list A :=
  match l with
  | [] => [x]
  | y :: r => if less x y then x :: y :: r else y :: insert_sorted less x r
  end.

Definition insertion_sort (A : Type) (less : A -> A -> bool) (l : list A) : list A :=
  fold_right (insert_sorted less) [] l.

End Output.

(** ** The line classifier and the file counter (design document, 4.2 and 4.3) *)

Module Classifier.

(** Modelled from the spec: the language descriptor of section 3; its source
    file is not part of this development.  Sets are lists, runes are bytes. *)
Record LanguageDescriptor := mkLanguageDescriptor {
  name : string;
  singleLineMarkers : list string;
  blockDelimiters : list (string * string);
  nestable : bool;
  stringQuotes : list ascii;
  escapeChar : option ascii
}.

(** Modelled from the spec: the classifier state of section 3, with the
    nesting counter that rule 4 of section 4.2 speaks of. *)
Record ClassifierState := mkClassifierState {
  inBlockComment : bool;
  activeDelimiterClose : option string;
  nesting : nat;
  inString : bool;
  stringQuote : option ascii
}.

Definition initial_state : ClassifierState :=
  {| inBlockComment := false; activeDelimiterClose := None; nesting := 0%nat;
     inString := false; stringQuote := None |}.

Inductive Classification := Blank | Comment | Code.

Definition is_space (c : ascii) : bool :=
  let n := nat_of_ascii c in
  (n =? 32)%nat || ((9 <=? n)%nat && (n <=? 13)%nat).

Fixpoint is_blank (line : string) : bool :=
  match line with
  | EmptyString => true
  | String c rest => is_space c && is_blank rest
  end.

(** A marker occurs at the head of [text]; the empty marker never does. *)
Definition starts_with (marker text : string) : bool :=
  match marker with
  | EmptyString => false
  | _ => String.prefix marker text
  end.

Definition any_marker (markers : list string) (text : string) : bool :=
  existsb (fun m => starts_with m text) markers.

Fixpoint first_delimiter (delims : list (string * string)) (text : string)
  : option (string * string) :=
  match delims with
  | [] => None
  | (o, c) :: rest =>
      if starts_with o text then Some (o, c) else first_delimiter rest text
  end.

Definition ascii_eqb_opt (o : option ascii) (c : ascii) : bool :=
  match o with
  | Some a => Ascii.eqb a c
  | None => false
  end.

(** The character before the current one is the escape character. *)
Definition escaped (d : LanguageDescriptor) (prev : option ascii) : bool :=
  match prev, escapeChar d with
  | Some p, Some e => Ascii.eqb p e
  | _, _ => false
  end.

Definition is_quote (d : LanguageDescriptor) (c : ascii) : bool :=
  existsb (Ascii.eqb c) (stringQuotes d).

(** The scan of one line: the state carried across lines, what the line
    showed so far, the previous character, and how many characters of a
    delimiter just matched are still to be passed over. *)
Record LineScan := mkLineScan {
  state : ClassifierState;
  sawCode : bool;
  sawComment : bool;
  prev : option ascii;
  skip : nat
}.

Inductive Step :=
| Continue (s : LineScan)
| RestIsComment (s : LineScan).

Definition with_prev (c : ascii) (s : LineScan) : LineScan :=
  {| state := state s; sawCode := sawCode s; sawComment := sawComment s;
     prev := Some c; skip := skip s |}.

(** Inside a block comment (rules 2 and 4): look for the active close
    delimiter and, in a nestable language, for a further open delimiter. *)
Definition step_in_comment (d : LanguageDescriptor) (s : LineScan) (text : string)
  : LineScan :=
  let st := state s in
  let closes := match activeDelimiterClose st with
                | Some cl => if starts_with cl text then Some cl else None
                | None => None
                end in
  match closes with
  | Some cl =>
      let depth := Nat.pred (nesting st) in
      let st' := if (depth =? 0)%nat
                 then {| inBlockComment := false; activeDelimiterClose := None;
                         nesting := 0%nat; inString := inString st;
                         stringQuote := stringQuote st |}
                 else {| inBlockComment := true;
                         activeDelimiterClose := activeDelimiterClose st;
                         nesting := depth; inString := inString st;
                         stringQuote := stringQuote st |} in
      {| state := st'; sawCode := sawCode s; sawComment := true;
         prev := prev s; skip := Nat.pred (String.length cl) |}
  | None =>
      match (if nestable d then first_delimiter (blockDelimiters d) text else None) with
      | Some (o, _) =>
          {| state := {| inBlockComment := true;
                         activeDelimiterClose := activeDelimiterClose st;
                         nesting := S (nesting st); inString := inString st;
                         stringQuote := stringQuote st |};
             sawCode := sawCode s; sawComment := true;
             prev := prev s; skip := Nat.pred (String.length o) |}
      | None =>
          {| state := st; sawCode := sawCode s; sawComment := true;
             prev := prev s; skip := 0%nat |}
      end
  end.

(** Inside a string region: markers are inert; the matching quote, when not
    preceded by the escape character, ends the region. *)
Definition step_in_string (d : LanguageDescriptor) (s : LineScan) (c : ascii)
  : LineScan :=
  let st := state s in
  if ascii_eqb_opt (stringQuote st) c && negb (escaped d (prev s))
  then {| state := {| inBlockComment := inBlockComment st;
                      activeDelimiterClose := activeDelimiterClose st;
                      nesting := nesting st; inString := false; stringQuote := None |};
          sawCode := true; sawComment := sawComment s; prev := prev s; skip := 0%nat |}
  else {| state := st; sawCode := true; sawComment := sawComment s;
          prev := prev s; skip := 0%nat |}.

(** Outside strings and comments (rule 3): the string state is looked at
    first, then the single-line markers, then the block open delimiters. *)
Definition step_normal (d : LanguageDescriptor) (s : LineScan) (c : ascii)
    (text : string) : Step :=
  let st := state s in
  if is_quote d c && negb (escaped d (prev s))
  then Continue
         {| state := {| inBlockComment := false;
                        activeDelimiterClose := activeDelimiterClose st;
                        nesting := nesting st; inString := true;
                        stringQuote := Some c |};
            sawCode := true; sawComment := sawComment s; prev := prev s; skip := 0%nat |}
  else if any_marker (singleLineMarkers d) text
  then RestIsComment
         {| state := st; sawCode := sawCode s; sawComment := true;
            prev := prev s; skip := 0%nat |}
  else
    match (if escaped d (prev s) then None
           else first_delimiter (blockDelimiters d) text) with
    | Some (o, cl) =>
        Continue
          {| state := {| inBlockComment := true; activeDelimiterClose := Some cl;
                         nesting := 1%nat; inString := false;
                         stringQuote := stringQuote st |};
             sawCode := sawCode s; sawComment := true;
             prev := prev s; skip := Nat.pred (String.length o) |}
    | None =>
        Continue
          {| state := st; sawCode := sawCode s || negb (is_space c);
             sawComment := sawComment s; prev := prev s; skip := 0%nat |}
    end.

Definition step (d : LanguageDescriptor) (s : LineScan) (c : ascii) (text : string)
  : Step :=
  if inBlockComment (state s) then Continue (step_in_comment d s text)
  else if inString (state s) then Continue (step_in_string d s c)
  else step_normal d s c text.

(** Left to right over the line; [text] is what is left of it. *)
Fixpoint scan (d : LanguageDescriptor) (s : LineScan) (text : string) : LineScan :=
  match text with
  | EmptyString => s
  | String c rest =>
      match skip s with
      | S k =>
          scan d {| state := state s; sawCode := sawCode s; sawComment := sawComment s;
                    prev := Some c; skip := k |} rest
      | O =>
          match step d s c text with
          | Continue s' => scan d (with_prev c s') rest
          | RestIsComment s' => s'
          end
      end
  end.

(** The scan after the first [n] characters of [text]: where it stands, or
    that a single-line marker ended it before. *)
Fixpoint scan_chars (d : LanguageDescriptor) (n : nat) (s : LineScan) (text : string)
  : Step :=
  match n, text with
  | S n', String c rest =>
      match skip s with
      | S k =>
          scan_chars d n'
            {| state := state s; sawCode := sawCode s; sawComment := sawComment s;
               prev := Some c; skip := k |} rest
      | O =>
          match step d s c text with
          | Continue s' => scan_chars d n' (with_prev c s') rest
          | RestIsComment s' => RestIsComment s'
          end
      end
  | _, _ => Continue s
  end.

Definition start_of_line (st : ClassifierState) : LineScan :=
  {| state := st; sawCode := false; sawComment := inBlockComment st;
     prev := None; skip := 0%nat |}.

(** Modelled from the spec: the Line Classifier of section 4.2, one tag per
    line and the state for the next line.  Rule 1 gives Blank; any comment
    content gives Comment, also next to code (the dominance rule); what is
    left is Code (rule 5).  A quote preceded by the escape character neither
    opens nor closes a string region. *)
Definition classify_line (d : LanguageDescriptor) (st : ClassifierState) (line : string)
  : Classification * ClassifierState :=
  if is_blank line && negb (inBlockComment st) then (Blank, st)
  else
    let s := scan d (start_of_line st) line in
    (if sawComment s then Comment else Code, state s).

(** Modelled from the spec: all the lines of one file, in order. *)
Fixpoint classify (d : LanguageDescriptor) (st : ClassifierState) (lines : list string)
  : list Classification :=
  match lines with
  | [] => []
  | line :: rest =>
      let (tag, st') := classify_line d st line in
      tag :: classify d st' rest
  end.

(** Modelled from the spec: the per-file record of section 3. *)
Record FileRecord := mkFileRecord {
  path : string;
  language : string;
  codeLines : Z;
  commentLines : Z;
  blankLines : Z;
  totalLines : Z
}.

Definition tally (tag : Classification) (r : FileRecord) : FileRecord :=
  match tag with
  | Blank =>
      {| path := path r; language := language r; codeLines := codeLines r;
         commentLines := commentLines r; blankLines := blankLines r + 1;
         totalLines := totalLines r + 1 |}
  | Comment =>
      {| path := path r; language := language r; codeLines := codeLines r;
         commentLines := commentLines r + 1; blankLines := blankLines r;
         totalLines := totalLines r + 1 |}
  | Code =>
      {| path := path r; language := language r; codeLines := codeLines r + 1;
         commentLines := commentLines r; blankLines := blankLines r;
         totalLines := totalLines r + 1 |}
  end.

Fixpoint count_loop (d : LanguageDescriptor) (st : ClassifierState) (r : FileRecord)
    (lines : list string) : FileRecord :=
  match lines with
  | [] => r
  | line :: rest =>
      let (tag, st') := classify_line d st line in
      count_loop d st' (tally tag r) rest
  end.

(** Modelled from the spec: the File Counter of section 4.3 on a file that
    was read; it drives the classifier over the lines read and counts each
    line once, in the total and under its tag. *)
Definition count (p : string) (d : LanguageDescriptor) (lines : list string) : FileRecord :=
  count_loop d initial_state
    {| path := p; language := name d; codeLines := 0; commentLines := 0;
       blankLines := 0; totalLines := 0 |} lines.

(** Vocabulary for statements about lines. *)
Fixpoint has_char (c : ascii) (s : string) : bool :=
  match s with
  | EmptyString => false
  | String a rest => Ascii.eqb c a || has_char c rest
  end.

(** The last character of [String c s]. *)
Fixpoint last_char (c : ascii) (s : string) : ascii :=
  match s with
  | EmptyString => c
  | String a rest => last_char a rest
  end.

(** The character before the position that follows [text], when [p] is the
    one before [text]. *)
Definition last_prev (p : option ascii) (text : string) : option ascii :=
  match text with
  | EmptyString => p
  | String c rest => Some (last_char c rest)
  end.

Definition headed_by (c : ascii) (marker : string) : bool :=
  match marker with
  | EmptyString => false
  | String a _ => Ascii.eqb a c
  end.

(** A character that is no quote, not the escape character, and at which no
    comment marker or open delimiter of the language starts. *)
Definition plain (d : LanguageDescriptor) (c : ascii) : bool :=
  negb (is_quote d c)
  && negb (ascii_eqb_opt (escapeChar d) c)
  && negb (existsb (headed_by c) (singleLineMarkers d))
  && negb (existsb (fun oc => headed_by c (fst oc)) (blockDelimiters d)).

Fixpoint all_plain (d : LanguageDescriptor) (s : string) : bool :=
  match s with
  | EmptyString => true
  | String c rest => plain d c && all_plain d rest
  end.

Fixpoint no_quote (d : LanguageDescriptor) (s : string) : bool :=
  match s with
  | EmptyString => true
  | String c rest => negb (is_quote d c) && no_quote d rest
  end.

(** [m] begins a comment in the language: a single-line marker or the open
    delimiter of a block comment. *)
Definition comment_token (d : LanguageDescriptor) (m : string) : Prop :=
  In m (singleLineMarkers d) \/ exists cl, In (m, cl) (blockDelimiters d).

(** On the line [pre +:+ rest], read from the state [st], the scan is not
    inside a string region when it comes to [rest]. *)
Definition outside_string (d : LanguageDescriptor) (st : ClassifierState)
    (pre rest : string) : Prop :=
  forall s, scan_chars d (String.length pre) (start_of_line st) (pre +:+ rest) = Continue s ->
            inString (state s) = false.

(** A C-like descriptor, for the examples of section 8. *)
Definition c_like : LanguageDescriptor :=
  {| name := "C"; singleLineMarkers := ["//"]; blockDelimiters := [("/*", "*/")];
     nestable := false; stringQuotes := ["034"%char; "'"%char];
     escapeChar := Some "\"%char |}.

End Classifier.

(** ** The worker pool and the aggregator (design document, 4.4, 4.5 and 5) *)

Module Scan.
Import Classifier.
Import Output.

(** Modelled from the spec: the error taxonomy of section 7 as the tagged
    variant of section 9. *)
Inductive ErrorKind := Permission | NotFound | IO.

Inductive ScanError :=
| FileError (p : string) (cause : ErrorKind)
| DirectoryError (p : string) (cause : ErrorKind).

(** What opening and reading a file gives, and what the traversal finds. *)
Inductive ReadResult :=
| ReadLines (lines : list string)
| ReadFailed (cause : ErrorKind).

Inductive Entry :=
| FileEntry (p : string) (content : ReadResult)
| UnreadableDir (p : string) (cause : ErrorKind).

(** What a worker hands to the aggregator for one file. *)
Inductive Outcome :=
| Skipped
| Counted (r : FileRecord)
| Failed (e : ScanError).

(** Modelled from the spec: the final snapshot of section 6; the language
    statistics are the records the printer reads. *)
Record Aggregate := mkAggregate {
  byLanguage : gmap string LanguageStats;
  grandTotal : LanguageStats;
  processedFiles : Z;
  skippedFiles : Z;
  errorCount : Z;
  errors : list ScanError
}.

Definition zero_stats (lang : string) : LanguageStats :=
  {| Language := lang; FileCount := 0; BlankLines := 0; CommentLines := 0;
     CodeLines := 0; TotalLines := 0 |}.

Definition empty_aggregate : Aggregate :=
  {| byLanguage := ∅; grandTotal := zero_stats "Total"; processedFiles := 0;
     skippedFiles := 0; errorCount := 0; errors := [] |}.

Definition add_record (s : LanguageStats) (r : FileRecord) : LanguageStats :=
  {| Language := Language s;
     FileCount := FileCount s + 1;
     BlankLines := BlankLines s + blankLines r;
     CommentLines := CommentLines s + commentLines r;
     CodeLines := CodeLines s + codeLines r;
     TotalLines := TotalLines s + totalLines r |}.

(** Modelled from the spec: the Aggregator of section 4.5.  One merge is one
    atomic step: a record goes into its language (created on its first file)
    and into the grand total; an unknown file is tallied as skipped, a
    failure is tallied and listed. *)
Definition merge (o : Outcome) (a : Aggregate) : Aggregate :=
  match o with
  | Skipped =>
      {| byLanguage := byLanguage a; grandTotal := grandTotal a;
         processedFiles := processedFiles a; skippedFiles := skippedFiles a + 1;
         errorCount := errorCount a; errors := errors a |}
  | Counted r =>
      let stats := default (zero_stats (language r)) (byLanguage a !! language r) in
      {| byLanguage := <[language r := add_record stats r]> (byLanguage a);
         grandTotal := add_record (grandTotal a) r;
         processedFiles := processedFiles a + 1; skippedFiles := skippedFiles a;
         errorCount := errorCount a; errors := errors a |}
  | Failed e =>
      {| byLanguage := byLanguage a; grandTotal := grandTotal a;
         processedFiles := processedFiles a; skippedFiles := skippedFiles a;
         errorCount := errorCount a + 1; errors := errors a ++ [e] |}
  end.

Definition merge_all (os : list Outcome) (a : Aggregate) : Aggregate :=
  fold_left (fun acc o => merge o acc) os a.

(** The aggregate statistics: everything of a snapshot but the error list. *)
Definition statistics (a : Aggregate)
  : gmap string LanguageStats * LanguageStats * Z * Z * Z :=
  (byLanguage a, grandTotal a, processedFiles a, skippedFiles a, errorCount a).

(** The invariant of section 3, on a file record, on the statistics of one
    language and on a whole snapshot. *)
Definition balanced (r : FileRecord) : Prop :=
  totalLines r = blankLines r + commentLines r + codeLines r.

Definition stats_balanced (s : LanguageStats) : Prop :=
  TotalLines s = BlankLines s + CommentLines s + CodeLines s.

Definition aggregate_balanced (a : Aggregate) : Prop :=
  (forall lang s, byLanguage a !! lang = Some s -> stats_balanced s)
  /\ stats_balanced (grandTotal a).

(** An outcome whose record, if it has one, is balanced. *)
Definition sound (o : Outcome) : Prop :=
  match o with
  | Counted r => balanced r
  | _ => True
  end.

Section Pool.

(** The Language Rule Table of section 4.1. *)
Variable resolve : string -> option LanguageDescriptor.

(** One worker on one file: resolve the language, run the File Counter. *)
Definition process (p : string) (content : ReadResult) : Outcome :=
  match resolve p with
  | None => Skipped
  | Some d =>
      match content with
      | ReadLines lines => Counted (count p d lines)
      | ReadFailed cause => Failed (FileError p cause)
      end
  end.

Definition outcome_of (e : Entry) : Outcome :=
  match e with
  | FileEntry p content => process p content
  | UnreadableDir p cause => Failed (DirectoryError p cause)
  end.

(** Modelled from the spec: the pool of sections 4.4 and 5.  [pending] is
    what the traversal has not reached yet, [queue] the shared work queue,
    [workers] one slot per worker, idle or holding the outcome of the file
    it is on. *)
Record Pool := mkPool {
  pending : list Entry;
  queue : list (string * ReadResult);
  workers : list (option Outcome);
  aggregate : Aggregate
}.

(** What the scheduler lets happen next. *)
Inductive Choice :=
| Discover
| Take (w : nat)
| Finish (w : nat).

Definition step (c : Choice) (s : Pool) : option Pool :=
  match c with
  | Discover =>
      match pending s with
      | [] => None
      | FileEntry p content :: rest =>
          Some {| pending := rest; queue := queue s ++ [(p, content)];
                  workers := workers s; aggregate := aggregate s |}
      | UnreadableDir p cause :: rest =>
          Some {| pending := rest; queue := queue s; workers := workers s;
                  aggregate := merge (Failed (DirectoryError p cause)) (aggregate s) |}
      end
  | Take w =>
      match workers s !! w, queue s with
      | Some None, (p, content) :: rest =>
          Some {| pending := pending s; queue := rest;
                  workers := <[w := Some (process p content)]> (workers s);
                  aggregate := aggregate s |}
      | _, _ => None
      end
  | Finish w =>
      match workers s !! w with
      | Some (Some o) =>
          Some {| pending := pending s; queue := queue s;
                  workers := <[w := None]> (workers s);
                  aggregate := merge o (aggregate s) |}
      | _ => None
      end
  end.

Fixpoint run (schedule : list Choice) (s : Pool) : option Pool :=
  match schedule with
  | [] => Some s
  | c :: rest =>
      match step c s with
      | Some s' => run rest s'
      | None => None
      end
  end.

Definition idle (slot : option Outcome) : bool :=
  match slot with
  | None => true
  | Some _ => false
  end.

(** Every entry was found, the queue is drained, every worker is done. *)
Definition quiescent (s : Pool) : bool :=
  match pending s, queue s with
  | [], [] => forallb idle (workers s)
  | _, _ => false
  end.

Definition init (n : nat) (tree : list Entry) : Pool :=
  {| pending := tree; queue := []; workers := replicate n None;
     aggregate := empty_aggregate |}.

(** The snapshot is read at quiescence only. *)
Definition snapshot (schedule : list Choice) (n : nat) (tree : list Entry)
  : option Aggregate :=
  match run schedule (init n tree) with
  | Some s => if quiescent s then Some (aggregate s) else None
  | None => None
  end.

(** The invariant holds of the aggregate and of what the workers hold. *)
Definition pool_balanced (s : Pool) : Prop :=
  aggregate_balanced (aggregate s)
  /\ (forall w o, workers s !! w = Some (Some o) -> sound o).

(** The outcomes that are still to be merged: of the entries not found yet,
    of the files queued, and of the files the workers are on. *)
Definition owed (s : Pool) : list Outcome :=
  map outcome_of (pending s)
  ++ map (fun f => process (fst f) (snd f)) (queue s)
  ++ omap id (workers s).

(** One worker taking the files one after the other. *)
Fixpoint sequential (tree : list Entry) : list Choice :=
  match tree with
  | [] => []
  | FileEntry _ _ :: rest => Discover :: Take 0 :: Finish 0 :: sequential rest
  | UnreadableDir _ _ :: rest => Discover :: sequential rest
  end.

End Pool.

(** A small scan, for examples: C files are counted, anything else is
    unknown. *)
Definition sample_resolve (p : string) : option LanguageDescriptor :=
  if Contains p ".c" then Some c_like else None.

Definition sample_tree : list Entry :=
  [ FileEntry "a.c" (ReadLines ["int x; // one"; EmptyString]);
    UnreadableDir "private" Permission;
    FileEntry "b.c" (ReadLines ["/* two"; "lines */"; "y = 2;"]);
    FileEntry "notes.xyz" (ReadLines ["hello"]) ].

Definition sample_schedule : list Choice :=
  [ Discover; Discover; Take 0; Discover; Take 1; Finish 1; Discover; Take 1;
    Finish 0; Finish 1 ].

End Scan.

(** ** Further vocabulary for logger.go *)

Module LoggerRuns.
Import GoInt Logger.

(** A record of the [out] writer carries one of its three tags. *)
Definition is_out_record (r : string) : bool :=
  String.prefix "[DEBUG] " r || String.prefix "[INFO] " r || String.prefix "[WARN] " r.

(** A sequence of calls that leaves the level alone. *)
Definition is_log (c : Call) : bool :=
  match c with
  | CallLog _ _ => true
  | CallSetLevel _ => false
  end.

Definition same_severity (a b : Severity) : bool :=
  match a, b with
  | SevDebug, SevDebug | SevInfo, SevInfo | SevWarn, SevWarn | SevError, SevError => true
  | _, _ => false
  end.

(** The number of calls of severity [k] in a sequence. *)
Definition calls_of (k : Severity) (cs : list Call) : nat :=
  length (List.filter (fun c => match c with
                                | CallLog k' _ => same_severity k k'
                                | CallSetLevel _ => false
                                end) cs).

(** The default logger as [init] creates it. *)
Definition defaultLogger_init : Logger := NewLogger LogLevelInfo.

Section Failures.

Variable error : Type.
Variable os_IsPermission : error -> bool.
Variable fmt_v : error -> string.

(** A failure met by a scan: on a directory or on a file, at a path, with
    its error. *)
Record Failure := mkFailure {
  on_directory : bool;
  at_path : string;
  cause : error
}.

Definition record_failure (f : Failure) (dl : Logger) : Logger :=
  if on_directory f
  then LogDirectoryError error os_IsPermission fmt_v (at_path f) (cause f) dl
  else LogFileError error os_IsPermission fmt_v (at_path f) (cause f) dl.

Definition record_failures (fs : list Failure) (dl : Logger) : Logger :=
  fold_left (fun st f => record_failure f st) fs dl.

Definition permission_failures (fs : list Failure) : nat :=
  length (List.filter (fun f => os_IsPermission (cause f)) fs).

Definition other_failures (fs : list Failure) : nat :=
  length (List.filter (fun f => negb (os_IsPermission (cause f))) fs).

End Failures.

End LoggerRuns.

(** ** Further vocabulary for the report printer *)

Module OutputText.
Import GoInt Output.

Fixpoint count_commas (s : string) : nat :=
  match s with
  | EmptyString => 0%nat
  | String c rest => ((if Ascii.eqb c "," then 1 else 0) + count_commas rest)%nat
  end.

(** Reading a decimal string back as an integer. *)
Definition parse_decimal (s : string) : option Z :=
  option_map Z.of_int (NilZero.int_of_string s).



Fixpoint count_char (c : ascii) (s : string) : nat :=
  match s with
  | EmptyString => 0%nat
  | String a rest => ((if Ascii.eqb c a then 1 else 0) + count_char c rest)%nat
  end.

(** The number of line ends in a text. *)
Definition line_ends (s : string) : nat := count_char "010"%char s.

End OutputText.

(** * Properties *)

(** ** Go's [int] *)

Module GoIntFacts.
Import GoInt.

Lemma wrap_int_id z : in_int z -> wrap_int z = z.
Proof.
  unfold in_int, wrap_int. intros H.
  rewrite Z.mod_small; lia.
Qed.

Lemma wrap_int_in z : in_int (wrap_int z).
Proof.
  unfold in_int, wrap_int.
  pose proof (Z.mod_pos_bound (z + 2 ^ 63) (2 ^ 64)). lia.
Qed.

Lemma wrap_int_succ z : wrap_int (wrap_int z + 1) = wrap_int (z + 1).
Proof.
  unfold wrap_int.
  replace ((z + 2 ^ 63) mod 2 ^ 64 - 2 ^ 63 + 1 + 2 ^ 63)
    with ((z + 2 ^ 63) mod 2 ^ 64 + 1) by lia.
  replace (z + 1 + 2 ^ 63) with ((z + 2 ^ 63) + 1) by lia.
  rewrite Zplus_mod_idemp_l. reflexivity.
Qed.

Lemma incr_wrap z : incr (wrap_int z) = wrap_int (z + 1).
Proof. unfold incr. apply wrap_int_succ. Qed.

End GoIntFacts.

(** ** Strings *)

Module StringFacts.

Lemma app_cons (x : ascii) (a b : string) : String x a +:+ b = String x (a +:+ b).
Proof. reflexivity. Qed.

Lemma app_nil_l (b : string) : EmptyString +:+ b = b.
Proof. reflexivity. Qed.

Lemma append_assoc (a b c : string) : (a +:+ b) +:+ c = a +:+ (b +:+ c).
Proof.
  induction a as [| x a IH]; [reflexivity |].
  rewrite !app_cons, IH. reflexivity.
Qed.

Lemma append_nil_r (a : string) : a +:+ EmptyString = a.
Proof.
  induction a as [| x a IH]; [reflexivity |].
  rewrite app_cons, IH. reflexivity.
Qed.


Lemma prefix_nil (s : string) : String.prefix EmptyString s = true.
Proof. destruct s; reflexivity. Qed.

Lemma prefix_append (a b : string) : String.prefix a (a +:+ b) = true.
Proof.
  induction a as [| x a IH]; [apply prefix_nil |].
  rewrite app_cons. simpl.
  destruct (ascii_dec x x) as [_ | N]; [exact IH | congruence].
Qed.

End StringFacts.

(** ** logger.go *)

Module LoggerFacts.
Import GoInt GoIntFacts Logger.

Lemma level_gate_true (a b : Z) : a <= b -> (a <=? b) = true.
Proof. intros H. apply Z.leb_le. exact H. Qed.

Lemma level_gate_false (a b : Z) : b < a -> (a <=? b) = false.
Proof. intros H. apply Z.leb_gt. exact H. Qed.

Lemma Warn_through msg l :
  level l <= LogLevelWarn -> logs_warning msg l (Warn msg l).
Proof. intros H. unfold Warn, logs_warning. rewrite level_gate_true by exact H. reflexivity. Qed.

Lemma Warn_gated msg l : LogLevelWarn < level l -> Warn msg l = l.
Proof. intros H. unfold Warn. rewrite level_gate_false by exact H. reflexivity. Qed.

Lemma Error_through msg l :
  level l <= LogLevelError -> logs_error msg l (Error msg l).
Proof. intros H. unfold Error, logs_error. rewrite level_gate_true by exact H. reflexivity. Qed.

Lemma Error_gated msg l : LogLevelError < level l -> Error msg l = l.
Proof. intros H. unfold Error. rewrite level_gate_false by exact H. reflexivity. Qed.

Section Errors.

Variable error : Type.
Variable os_IsPermission : error -> bool.
Variable fmt_v : error -> string.

Local Abbreviation IsPermissionError := (IsPermissionError error os_IsPermission).
Local Abbreviation LogFileError := (LogFileError error os_IsPermission fmt_v).
Local Abbreviation LogDirectoryError := (LogDirectoryError error os_IsPermission fmt_v).

(** C1, with the level of the logger.  A permission error goes to [Warn] and any other error
    to [Error], for a file and for a directory alike.  The record is written
    and the tally incremented when the level of the default logger lets the
    severity through (at most [LogLevelWarn] for the warning, at most
    [LogLevelError] for the error); above that level the call changes
    nothing.  The functions are total: the call returns in every case. *)
Theorem C1_failures_logged_by_kind (p : string) (e : error) (dl : Logger) :
  (IsPermissionError e = true /\ level dl <= LogLevelWarn ->
     logs_warning ("Permission denied: " +:+ p) dl (LogFileError p e dl) /\
     logs_warning ("Permission denied for directory: " +:+ p) dl (LogDirectoryError p e dl))
  /\ (IsPermissionError e = true /\ LogLevelWarn < level dl ->
     LogFileError p e dl = dl /\ LogDirectoryError p e dl = dl)
  /\ (IsPermissionError e = false /\ level dl <= LogLevelError ->
     logs_error ("Failed to process file " +:+ p +:+ ": " +:+ fmt_v e) dl
                (LogFileError p e dl) /\
     logs_error ("Failed to process directory " +:+ p +:+ ": " +:+ fmt_v e) dl
                (LogDirectoryError p e dl))
  /\ (IsPermissionError e = false /\ LogLevelError < level dl ->
     LogFileError p e dl = dl /\ LogDirectoryError p e dl = dl).
Proof.
  unfold Logger.LogFileError, Logger.LogDirectoryError, LogWarn, LogError.
  split; [| split; [| split]]; intros [Hk Hl]; rewrite Hk; split;
    auto using Warn_through, Warn_gated, Error_through, Error_gated.
Qed.

End Errors.

(** C1 at a concrete call: a permission error on a file, default level. *)
Lemma C1_failures_logged_by_kind_witness :
  let e := PathError "open" "secret.go" ErrPermission in
  let dl := NewLogger LogLevelInfo in
  logs_warning "Permission denied: secret.go" dl
    (LogFileError sample_error sample_IsPermission sample_Error "secret.go" e dl)
  /\ logs_error "Failed to process file gone.go: file does not exist" dl
    (LogFileError sample_error sample_IsPermission sample_Error "gone.go" ErrNotExist dl).
Proof.
  split.
  - apply (C1_failures_logged_by_kind sample_error sample_IsPermission sample_Error
             "secret.go" (PathError "open" "secret.go" ErrPermission)
             (NewLogger LogLevelInfo)).
    split; [reflexivity | vm_compute; discriminate].
  - apply (C1_failures_logged_by_kind sample_error sample_IsPermission sample_Error
             "gone.go" ErrNotExist (NewLogger LogLevelInfo)).
    split; [reflexivity | vm_compute; discriminate].
Defined.

(** C1 needs the level: above [LogLevelWarn] nothing is tallied.  After
    [SetLogLevel(LogLevelError)] a permission error on a file writes no
    warning and leaves the warning tally as it was. *)
Lemma C1_counterexample :
  ~ logs_warning "Permission denied: secret.go"
      (SetLogLevel LogLevelError (NewLogger LogLevelInfo))
      (LogFileError sample_error sample_IsPermission sample_Error "secret.go"
         (PathError "open" "secret.go" ErrPermission)
         (SetLogLevel LogLevelError (NewLogger LogLevelInfo))).
Proof. unfold logs_warning. vm_compute. discriminate. Qed.

(** *** The level gate and the tallies *)

Lemma log_through k msg l :
  level l <= severity k -> written (log k msg l) = written_after k msg l.
Proof.
  intros H. destruct k; simpl in *; unfold Debug, Info, Warn, Error;
    rewrite level_gate_true by exact H; reflexivity.
Qed.

Lemma log_gated k msg l : severity k < level l -> log k msg l = l.
Proof.
  intros H. destruct k; simpl in *; unfold Debug, Info, Warn, Error;
    rewrite level_gate_false by exact H; reflexivity.
Qed.

Lemma snoc_neq {A : Type} (xs : list A) (x : A) : xs <> xs ++ [x].
Proof.
  intros E. apply (f_equal (@length A)) in E.
  rewrite length_app in E. simpl in E. lia.
Qed.

Lemma written_after_neq k msg l : written l <> written_after k msg l.
Proof.
  unfold written, written_after. intros E.
  apply (f_equal (fun w => (length (fst w) + length (snd w))%nat)) in E.
  destruct k; simpl in E; rewrite length_app in E; simpl in E; lia.
Qed.

Lemma warn_tally_step k msg l :
  GetWarnCount (log k msg l) =
  match k with
  | SevWarn => if level l <=? LogLevelWarn then incr (GetWarnCount l) else GetWarnCount l
  | _ => GetWarnCount l
  end.
Proof.
  destruct k; simpl; unfold Debug, Info, Warn, Error, GetWarnCount;
    repeat match goal with |- context [?a <=? ?b] => destruct (a <=? b) end; reflexivity.
Qed.

Lemma error_tally_step k msg l :
  GetErrorCount (log k msg l) =
  match k with
  | SevError => if level l <=? LogLevelError then incr (GetErrorCount l) else GetErrorCount l
  | _ => GetErrorCount l
  end.
Proof.
  destruct k; simpl; unfold Debug, Info, Warn, Error, GetErrorCount;
    repeat match goal with |- context [?a <=? ?b] => destruct (a <=? b) end; reflexivity.
Qed.

Lemma emitted_snoc (P : string -> bool) (rs : list string) (r : string) :
  Z.of_nat (length (filter (fun x => P x = true) (rs ++ [r]))) =
  Z.of_nat (length (filter (fun x => P x = true) rs)) + (if P r then 1 else 0).
Proof.
  rewrite filter_app, length_app, filter_cons, filter_nil.
  destruct (decide (P r = true)) as [E | E].
  - rewrite E. simpl. lia.
  - destruct (P r); [congruence | simpl; lia].
Qed.

Lemma is_warn_record_tag k msg :
  is_warn_record (tag k +:+ msg) = match k with SevWarn => true | _ => false end.
Proof. destruct k; try reflexivity. destruct msg; reflexivity. Qed.

Lemma is_error_record_tag k msg :
  is_error_record (tag k +:+ msg) = match k with SevError => true | _ => false end.
Proof. destruct k; try reflexivity. destruct msg; reflexivity. Qed.

Lemma tallies_match_call c l : tallies_match l -> tallies_match (call c l).
Proof.
  unfold tallies_match, GetWarnCount, GetErrorCount, emitted_warnings, emitted_errors.
  intros [Hw He]. destruct c as [k msg | lv]; [| exact (conj Hw He)].
  destruct k; simpl; unfold Debug, Info, Warn, Error;
    match goal with |- context [?a <=? ?b] => destruct (a <=? b) end;
    simpl; try exact (conj Hw He);
    rewrite ?emitted_snoc.
  - rewrite (is_warn_record_tag SevDebug). rewrite Z.add_0_r. exact (conj Hw He).
  - rewrite (is_warn_record_tag SevInfo). rewrite Z.add_0_r. exact (conj Hw He).
  - rewrite (is_warn_record_tag SevWarn). split; [| exact He].
    rewrite Hw. apply incr_wrap.
  - rewrite (is_error_record_tag SevError). split; [exact Hw |].
    rewrite He. apply incr_wrap.
Qed.

Lemma tallies_match_run cs l : tallies_match l -> tallies_match (run cs l).
Proof.
  revert l. induction cs as [| c cs IH]; intros l H; simpl; [exact H |].
  apply IH. apply tallies_match_call. exact H.
Qed.

(** C8.  A call writes its record exactly when the level of the logger is at
    most the severity of the call, and then changes nothing else but its
    tally; at [LogLevelSilent] no call writes; [warnCount] is incremented by
    a [Warn] that writes and by nothing else, [errorCount] by an [Error]
    that writes and by nothing else; so after any sequence of calls on a new
    logger the two getters return the numbers of warning and error records
    written (as Go integers), whatever the number of calls. *)
Theorem C8_level_gates_records_and_tallies :
  (forall k msg l,
     written (log k msg l) = written_after k msg l <-> level l <= severity k)
  /\ (forall k msg l, severity k < level l -> log k msg l = l)
  /\ (forall k msg l, level l = LogLevelSilent -> log k msg l = l)
  /\ (forall k msg l,
        GetWarnCount (log k msg l) =
        match k with
        | SevWarn => if level l <=? LogLevelWarn then incr (GetWarnCount l)
                     else GetWarnCount l
        | _ => GetWarnCount l
        end)
  /\ (forall k msg l,
        GetErrorCount (log k msg l) =
        match k with
        | SevError => if level l <=? LogLevelError then incr (GetErrorCount l)
                      else GetErrorCount l
        | _ => GetErrorCount l
        end)
  /\ (forall cs lv,
        GetWarnCount (run cs (NewLogger lv)) = wrap_int (emitted_warnings (run cs (NewLogger lv)))
        /\ GetErrorCount (run cs (NewLogger lv)) = wrap_int (emitted_errors (run cs (NewLogger lv))))
  /\ (forall cs lv,
        (emitted_warnings (run cs (NewLogger lv)) < 2 ^ 63 ->
         GetWarnCount (run cs (NewLogger lv)) = emitted_warnings (run cs (NewLogger lv)))
        /\ (emitted_errors (run cs (NewLogger lv)) < 2 ^ 63 ->
         GetErrorCount (run cs (NewLogger lv)) = emitted_errors (run cs (NewLogger lv)))).
Proof.
  assert (Hrun : forall cs lv, tallies_match (run cs (NewLogger lv))).
  { intros cs lv. apply tallies_match_run. split; reflexivity. }
  split; [| split; [| split; [| split; [| split; [| split]]]]].
  - intros k msg l. split.
    + intros E. destruct (Z_le_gt_dec (level l) (severity k)) as [H | H]; [exact H |].
      exfalso. rewrite log_gated in E by lia. exact (written_after_neq _ _ _ E).
    + apply log_through.
  - apply log_gated.
  - intros k msg l H. apply log_gated. rewrite H. destruct k; reflexivity.
  - apply warn_tally_step.
  - apply error_tally_step.
  - exact Hrun.
  - intros cs lv. destruct (Hrun cs lv) as [Hw He]. split; intros Hb.
    + rewrite Hw. apply wrap_int_id. unfold in_int, emitted_warnings in *. lia.
    + rewrite He. apply wrap_int_id. unfold in_int, emitted_errors in *. lia.
Qed.

(** C8 on a concrete run: three calls get through at [LogLevelWarn], one
    warning among them; the same calls at [LogLevelSilent] write nothing. *)
Lemma C8_level_gates_records_and_tallies_witness :
  GetWarnCount
    (run [CallLog SevWarn "w1"; CallLog SevInfo "i"; CallLog SevError "e"; CallLog SevWarn "w2"]
         (NewLogger LogLevelInfo)) = 2
  /\ log SevWarn "w1" (NewLogger LogLevelSilent) = NewLogger LogLevelSilent.
Proof.
  split.
  - destruct C8_level_gates_records_and_tallies as (_ & _ & _ & _ & _ & _ & H).
    destruct (H [CallLog SevWarn "w1"; CallLog SevInfo "i"; CallLog SevError "e";
                 CallLog SevWarn "w2"] LogLevelInfo) as [Hw _].
    rewrite Hw; [reflexivity | vm_compute; reflexivity].
  - destruct C8_level_gates_records_and_tallies as (_ & _ & H & _).
    apply H. reflexivity.
Defined.

End LoggerFacts.

(** ** The report printer *)

Module OutputFacts.
Import GoInt GoIntFacts StringFacts Output.

(** *** Strings *)

Lemma Contains_unfold (s sub : string) :
  Contains s sub =
  String.prefix sub s
  || match s with
     | EmptyString => false
     | String _ rest => Contains rest sub
     end.
Proof. destruct s; reflexivity. Qed.

Lemma Contains_prefix (s sub : string) : String.prefix sub s = true -> Contains s sub = true.
Proof. intros H. rewrite Contains_unfold, H. reflexivity. Qed.

Lemma Contains_append_r (pre s sub : string) :
  Contains s sub = true -> Contains (pre +:+ s) sub = true.
Proof.
  intros H. induction pre as [| x pre IH]; [exact H |].
  rewrite app_cons, Contains_unfold, IH. apply orb_true_r.
Qed.

Lemma occurs_append (c : ascii) (a b : string) :
  occurs c (a +:+ b) = occurs c a || occurs c b.
Proof.
  induction a as [| x a IH]; [reflexivity |].
  rewrite app_cons. simpl. rewrite IH. apply orb_assoc.
Qed.

Lemma prefix_occurs (c : ascii) (sub s : string) :
  String.prefix sub s = true -> occurs c sub = true -> occurs c s = true.
Proof.
  revert s. induction sub as [| y sub IH]; intros s H Hc; [discriminate |].
  destruct s as [| x s]; simpl in H; [discriminate |].
  destruct (ascii_dec y x) as [-> | N]; [| discriminate].
  simpl in *. apply orb_true_iff in Hc as [Hc | Hc].
  - rewrite Hc. reflexivity.
  - rewrite (IH _ H Hc). apply orb_true_r.
Qed.

Lemma Contains_occurs (c : ascii) (sub s : string) :
  Contains s sub = true -> occurs c sub = true -> occurs c s = true.
Proof.
  intros H Hc. induction s as [| x s IH].
  - rewrite Contains_unfold, orb_false_r in H. exact (prefix_occurs _ _ _ H Hc).
  - rewrite Contains_unfold in H. apply orb_true_iff in H as [H | H].
    + exact (prefix_occurs _ _ _ H Hc).
    + simpl. rewrite (IH H). apply orb_true_r.
Qed.

Lemma Contains_head (sub post : string) : Contains (sub +:+ post) sub = true.
Proof. apply Contains_prefix, prefix_append. Qed.

(** *** The verb [%d] *)

Lemma uint_digits (d : Decimal.uint) (c : ascii) :
  occurs c (NilEmpty.string_of_uint d) = true -> is_digit c = true.
Proof.
  induction d; simpl; intros H; try discriminate;
    apply orb_true_iff in H as [H | H]; auto;
    apply Ascii.eqb_eq in H; subst c; reflexivity.
Qed.

Lemma uint_digits_zero (d : Decimal.uint) (c : ascii) :
  occurs c (NilZero.string_of_uint d) = true -> is_digit c = true.
Proof.
  unfold NilZero.string_of_uint. destruct d; try apply uint_digits.
  simpl. rewrite orb_false_r. intros H. apply Ascii.eqb_eq in H. subst c. reflexivity.
Qed.

Lemma fmt_d_chars (z : Z) (c : ascii) :
  occurs c (fmt_d z) = true -> is_digit c = true \/ c = "-"%char.
Proof.
  unfold fmt_d. destruct z as [| q | q]; simpl.
  - rewrite orb_false_r. intros H. apply Ascii.eqb_eq in H. subst c. left. reflexivity.
  - intros H. left. exact (uint_digits_zero _ _ H).
  - intros H. apply orb_true_iff in H as [H | H].
    + right. apply Ascii.eqb_eq in H. exact H.
    + left. exact (uint_digits_zero _ _ H).
Qed.

Lemma fmt_d_digits (z : Z) (c : ascii) :
  0 <= z -> occurs c (fmt_d z) = true -> is_digit c = true.
Proof.
  intros Hz H. unfold fmt_d in H. destruct z as [| q | q]; [| | lia].
  - simpl in H. rewrite orb_false_r in H. apply Ascii.eqb_eq in H. subst c. reflexivity.
  - exact (uint_digits_zero _ _ H).
Qed.

Lemma fmt_d_no_letter (z : Z) (c : ascii) :
  is_digit c = false -> c <> "-"%char -> occurs c (fmt_d z) = false.
Proof.
  intros Hd Hm. destruct (occurs c (fmt_d z)) eqn:E; [| reflexivity].
  destruct (fmt_d_chars _ _ E); congruence.
Qed.

(** *** The footer *)

Lemma printFooter_no_errors (p s e : Z) :
  e <= 0 -> occurs "E" (printFooter p s e) = false.
Proof.
  intros H. unfold printFooter.
  replace (e >? 0) with false by (symmetry; rewrite Z.gtb_ltb; apply Z.ltb_ge; exact H).
  rewrite !occurs_append.
  rewrite !(fmt_d_no_letter _ "E") by (reflexivity || discriminate).
  reflexivity.
Qed.

(** C2, with the guard on the errors.  The footer always carries the line of the processed
    files and the line of the skipped files, each with its count; the line
    of the errors, with its count, is printed exactly when the count of
    errors is positive. *)
Theorem C2_footer_counts (processedFiles skippedFiles errorCount : Z) :
  Contains (printFooter processedFiles skippedFiles errorCount)
           (processed_line processedFiles) = true
  /\ Contains (printFooter processedFiles skippedFiles errorCount)
              (skipped_line skippedFiles) = true
  /\ (Contains (printFooter processedFiles skippedFiles errorCount)
               (errors_line errorCount) = true <-> 0 < errorCount).
Proof.
  split; [| split; [| split]].
  - unfold printFooter, processed_line.
    do 4 apply Contains_append_r.
    rewrite <- (append_assoc (fmt_d processedFiles) nl), <- (append_assoc _ (_ +:+ nl)).
    apply Contains_head.
  - unfold printFooter, skipped_line.
    do 7 apply Contains_append_r.
    rewrite <- (append_assoc (fmt_d skippedFiles) nl), <- (append_assoc _ (_ +:+ nl)).
    apply Contains_head.
  - intros H. destruct (Z_lt_le_dec 0 errorCount) as [Hpos | Hle]; [exact Hpos |].
    exfalso.
    assert (HE : occurs "E" (printFooter processedFiles skippedFiles errorCount) = true).
    { apply (Contains_occurs _ _ _ H). reflexivity. }
    rewrite printFooter_no_errors in HE by exact Hle. discriminate.
  - intros Hpos. unfold printFooter, errors_line.
    replace (errorCount >? 0) with true
      by (symmetry; rewrite Z.gtb_ltb; apply Z.ltb_lt; exact Hpos).
    do 10 apply Contains_append_r.
    apply Contains_head.
Qed.

(** C2 needs the guard: with no error, the footer of a scan with
    5 files processed, 3 skipped and 0 errors shows no count of errors. *)
Lemma C2_counterexample :
  ~ (Contains (printFooter 5 3 0) (fmt_d 5) = true
     /\ Contains (printFooter 5 3 0) (fmt_d 3) = true
     /\ Contains (printFooter 5 3 0) (fmt_d 0) = true).
Proof. intros (_ & _ & H). vm_compute in H. discriminate. Qed.

(** *** The list of errors *)

Section Errors.

Variable error : Type.
Variable fmt_v : error -> string.

Local Abbreviation PrintErrors_loop := (PrintErrors_loop error fmt_v).
Local Abbreviation PrintErrors := (PrintErrors error fmt_v).
Local Abbreviation PrintErrors_capped := (PrintErrors_capped error fmt_v).
Local Abbreviation detailed_entry := (detailed_entry error fmt_v).

Lemma PrintErrors_loop_capped (n i : Z) (errs : list error) :
  0 <= i <= 10 ->
  PrintErrors_loop n i errs =
  concat_lines (map detailed_entry (take (Z.to_nat (10 - i)) errs))
  +:+ (if (Z.to_nat (10 - i) <? length errs)%nat then summary_line (n - 10)
       else EmptyString).
Proof.
  revert i. induction errs as [| err rest IH]; intros i Hi.
  - rewrite take_nil. reflexivity.
  - cbn [Output.PrintErrors_loop]. destruct (i >=? 10) eqn:E.
    + assert (i = 10) by lia. subst i. reflexivity.
    + assert (Hlt : i < 10) by lia.
      rewrite IH by lia.
      replace (Z.to_nat (10 - i)) with (S (Z.to_nat (10 - (i + 1)))) by lia.
      cbn [take map concat_lines fold_right length Nat.ltb Nat.leb].
      unfold Output.detailed_entry at 2.
      rewrite !append_assoc. reflexivity.
Qed.

(** C3.  [PrintErrors] prints nothing for an empty list; otherwise, between
    the heading and the closing empty line, it prints the first 10 errors in
    the order of the list, one line each, and, when the list has more than
    10 entries, one summary line after them with the number left, the length
    minus 10. *)
Theorem C3_errors_capped_at_ten (errors : list error) :
  PrintErrors errors = PrintErrors_capped errors.
Proof.
  unfold Output.PrintErrors, Output.PrintErrors_capped.
  destruct errors as [| err rest]; [reflexivity |].
  replace (Z.of_nat (length (err :: rest)) =? 0) with false
    by (symmetry; apply Z.eqb_neq; simpl; lia).
  rewrite PrintErrors_loop_capped by lia.
  rewrite !append_assoc. reflexivity.
Qed.

End Errors.

(** *** [FormatNumber] *)

Lemma get_occurs (i : nat) (s : string) (c : ascii) :
  String.get i s = Some c -> occurs c s = true.
Proof.
  revert i. induction s as [| x s IH]; intros i H; [destruct i; discriminate |].
  destruct i as [| i]; simpl in *.
  - injection H as ->. rewrite Ascii.eqb_refl. reflexivity.
  - rewrite (IH _ H). apply orb_true_r.
Qed.

Lemma fmt_d_no_comma (n : Z) : 0 <= n -> occurs "," (fmt_d n) = false.
Proof.
  intros Hn. destruct (occurs "," (fmt_d n)) eqn:E; [| reflexivity].
  apply fmt_d_digits in E; [discriminate | exact Hn].
Qed.

Lemma fmt_d_small (n : Z) : 0 <= n < 1000 -> (String.length (fmt_d n) <= 3)%nat.
Proof.
  intros Hn.
  assert (H : List.forallb (fun k => (String.length (fmt_d (Z.of_nat k)) <=? 3)%nat)
                (List.seq 0 1000) = true) by (vm_compute; reflexivity).
  rewrite List.forallb_forall in H.
  specialize (H (Z.to_nat n)). rewrite Z2Nat.id in H by lia.
  apply Nat.leb_le, H, List.in_seq. lia.
Qed.

(** The comma test of the loop, on the number of digits still to write. *)
Lemma comma_test (length i : Z) (m : nat) :
  length = i + Z.of_nat m -> 0 < i ->
  (i >? 0) && (Z.rem (length - i) 3 =? 0) = (m mod 3 =? 0)%nat.
Proof.
  intros -> Hi.
  replace (i >? 0) with true by (symmetry; rewrite Z.gtb_ltb; apply Z.ltb_lt; exact Hi).
  replace (i + Z.of_nat m - i) with (Z.of_nat m) by lia.
  rewrite Z.rem_mod_nonneg by lia. rewrite andb_true_l.
  destruct (Z.eqb_spec (Z.of_nat m mod 3) 0) as [E | E],
           (Nat.eqb_spec (m mod 3) 0) as [F | F];
    try reflexivity; exfalso; zify; Z.to_euclidean_division_equations; lia.
Qed.

Lemma loop_remove_commas (length i : Z) (str : string) :
  occurs "," str = false -> remove_commas (FormatNumber_loop length i str) = str.
Proof.
  revert i. induction str as [| c rest IH]; intros i H; [reflexivity |].
  cbn [occurs] in H. apply orb_false_iff in H as [Hc Hrest].
  rewrite Ascii.eqb_sym in Hc.
  cbn [FormatNumber_loop].
  destruct ((i >? 0) && (Z.rem (length - i) 3 =? 0));
    cbn [remove_commas]; rewrite ?Ascii.eqb_refl; cbn [remove_commas];
    rewrite Hc, (IH _ Hrest); reflexivity.
Qed.

Lemma loop_length (length i : Z) (str : string) :
  length = i + len str -> 0 < i ->
  String.length (FormatNumber_loop length i str)
  = (String.length str + String.length str / 3)%nat.
Proof.
  revert i. induction str as [| c rest IH]; intros i HL Hi; [reflexivity |].
  cbn [FormatNumber_loop].
  rewrite (comma_test length i (S (String.length rest))) by (unfold len in HL; simpl in HL; lia || exact Hi).
  assert (HL' : length = (i + 1) + len rest) by (unfold len in *; simpl in HL; lia).
  destruct (Nat.eqb_spec (S (String.length rest) mod 3) 0) as [E | E];
    simpl String.length; rewrite (IH _ HL') by lia;
    zify; Z.to_euclidean_division_equations; lia.
Qed.

(** Counted from the right, the commas of [out] sit at the places 3, 7, 11, ... *)
Lemma commas_cons (c : ascii) (out : string) :
  commas_every_fourth out ->
  (c = ","%char <-> (String.length out mod 4 = 3)%nat) ->
  commas_every_fourth (String c out).
Proof.
  unfold commas_every_fourth. intros Hout Hc k Hk.
  simpl String.length in *.
  destruct (Nat.eq_dec k (String.length out)) as [-> | Hne].
  - replace (S (String.length out) - 1 - String.length out)%nat with 0%nat by lia.
    simpl. rewrite <- Hc. split; [intros [= ->]; reflexivity | intros ->; reflexivity].
  - replace (S (String.length out) - 1 - k)%nat
      with (S (String.length out - 1 - k)) by lia.
    simpl. apply Hout. lia.
Qed.

Lemma commas_loop (length i : Z) (str : string) :
  length = i + len str -> 0 < i -> occurs "," str = false ->
  commas_every_fourth (FormatNumber_loop length i str).
Proof.
  revert i. induction str as [| c rest IH]; intros i HL Hi Hno.
  - intros k Hk. simpl in Hk. lia.
  - cbn [occurs] in Hno. apply orb_false_iff in Hno as [Hc Hrest].
    apply Ascii.eqb_neq in Hc.
    assert (HL' : length = (i + 1) + len rest) by (unfold len in *; simpl in HL; lia).
    assert (Hlen := loop_length length (i + 1) rest HL' ltac:(lia)).
    assert (Hrec := IH (i + 1) HL' ltac:(lia) Hrest).
    cbn [FormatNumber_loop].
    rewrite (comma_test length i (S (String.length rest)))
      by (unfold len in HL; simpl in HL; lia || exact Hi).
    assert (Hdigit : commas_every_fourth
                       (String c (FormatNumber_loop length (i + 1) rest))).
    { apply commas_cons; [exact Hrec |]. rewrite Hlen. split.
      - intros ->. congruence.
      - intros E. exfalso. zify. Z.to_euclidean_division_equations. lia. }
    destruct (Nat.eqb_spec (S (String.length rest) mod 3) 0) as [E | E];
      [| exact Hdigit].
    apply commas_cons; [exact Hdigit |].
    simpl String.length. rewrite Hlen. split; [intros _ | reflexivity].
    zify. Z.to_euclidean_division_equations. lia.
Qed.

Lemma commas_top (str : string) :
  occurs "," str = false ->
  commas_every_fourth (FormatNumber_loop (len str) 0 str)
  /\ String.get 0 (FormatNumber_loop (len str) 0 str) <> Some ","%char.
Proof.
  destruct str as [| c rest]; intros Hno.
  - split; [intros k Hk; simpl in Hk; lia | discriminate].
  - cbn [occurs] in Hno. apply orb_false_iff in Hno as [Hc Hrest].
    apply Ascii.eqb_neq in Hc.
    assert (HL : len (String c rest) = (0 + 1) + len rest) by (unfold len; simpl; lia).
    cbn [FormatNumber_loop]. simpl andb. cbv iota.
    split.
    + apply commas_cons; [apply commas_loop; [exact HL | lia | exact Hrest] |].
      rewrite (loop_length _ _ _ HL) by lia. split.
      * intros ->. congruence.
      * intros E. exfalso. zify. Z.to_euclidean_division_equations. lia.
    + simpl. intros [= ->]. congruence.
Qed.

Lemma commas_short (s : string) :
  occurs "," s = false -> (String.length s <= 3)%nat -> commas_every_fourth s.
Proof.
  intros Hno Hlen k Hk. split.
  - intros H. apply get_occurs in H. congruence.
  - intros E. exfalso.
    assert (k mod 4 = k)%nat by (apply Nat.mod_small; lia). lia.
Qed.

(** C9.  For a non-negative [n], taking the commas out of [FormatNumber n]
    gives back the decimal digits of [n]; counted from the rightmost
    character (place 0), the commas are exactly at the places 3, 7, 11, ...,
    so that every group to the right of a comma has three digits; the first
    character is not a comma; and below 1000 the result is the plain decimal
    string. *)
Theorem C9_FormatNumber_groups_of_three (n : Z) :
  0 <= n ->
  remove_commas (FormatNumber n) = fmt_d n
  /\ commas_every_fourth (FormatNumber n)
  /\ String.get 0 (FormatNumber n) <> Some ","%char
  /\ (n < 1000 -> FormatNumber n = fmt_d n).
Proof.
  intros Hn. pose proof (fmt_d_no_comma n Hn) as Hno.
  unfold FormatNumber. destruct (n <? 1000) eqn:E.
  - apply Z.ltb_lt in E. split; [| split; [| split]].
    + clear E. induction (fmt_d n) as [| c s IH]; [reflexivity |].
      cbn [occurs] in Hno. apply orb_false_iff in Hno as [Hc Hs].
      rewrite Ascii.eqb_sym in Hc. cbn [remove_commas]. rewrite Hc, (IH Hs). reflexivity.
    + apply commas_short; [exact Hno | apply fmt_d_small; lia].
    + intros H. apply get_occurs in H. congruence.
    + reflexivity.
  - apply Z.ltb_ge in E. split; [| split; [| split]].
    + apply loop_remove_commas. exact Hno.
    + apply commas_top. exact Hno.
    + apply commas_top. exact Hno.
    + lia.
Qed.

(** C9 on 1234567 and on 42. *)
Lemma C9_FormatNumber_groups_of_three_witness :
  remove_commas (FormatNumber 1234567) = fmt_d 1234567
  /\ FormatNumber 1234567 = "1,234,567"
  /\ FormatNumber 42 = fmt_d 42.
Proof.
  split; [| split].
  - apply (C9_FormatNumber_groups_of_three 1234567). lia.
  - reflexivity.
  - apply (C9_FormatNumber_groups_of_three 42); lia.
Defined.

(** *** The order of the languages *)

Lemma greater_is_strict_weak_order {A : Type} (key : A -> Z) :
  strict_weak_order (fun a b => key a >? key b).
Proof.
  repeat split; intros *; rewrite ?Z.gtb_ltb, ?Z.ltb_lt, ?Z.ltb_ge; lia.
Qed.

Lemma strict_weak_order_complement_transitive {A : Type} (less : A -> A -> bool) :
  strict_weak_order less -> Transitive (fun a b => less b a = false).
Proof. intros (_ & _ & H) a b c Hab Hbc. exact (H c b a Hbc Hab). Qed.

Lemma StronglySorted_weaken {A : Type} (R1 R2 : A -> A -> Prop) (l : list A) :
  (forall a b, R1 a b -> R2 a b) -> StronglySorted R1 l -> StronglySorted R2 l.
Proof.
  intros H. induction 1 as [| x r Hr IH Hx]; constructor; [exact IH |].
  eapply Forall_impl; [exact Hx |]. intros b. apply H.
Qed.

Lemma insert_sorted_perm {A : Type} (less : A -> A -> bool) (x : A) (l : list A) :
  insert_sorted less x l ≡ₚ x :: l.
Proof.
  induction l as [| y r IH]; simpl; [reflexivity |].
  destruct (less x y); [reflexivity |].
  rewrite IH. apply Permutation_swap.
Qed.

Lemma insert_sorted_sorted {A : Type} (less : A -> A -> bool) (x : A) (l : list A) :
  strict_weak_order less ->
  StronglySorted (fun a b => less b a = false) l ->
  StronglySorted (fun a b => less b a = false) (insert_sorted less x l).
Proof.
  intros (Hirr & Htr & Hneg) Hl. induction Hl as [| y r Hr IH Hy]; simpl.
  - repeat constructor.
  - destruct (less x y) eqn:E.
    + constructor; [constructor; assumption |].
      assert (Hyx : less y x = false).
      { destruct (less y x) eqn:F; [| reflexivity].
        rewrite <- (Hirr x). symmetry. exact (Htr _ _ _ E F). }
      constructor; [exact Hyx |].
      eapply Forall_impl; [exact Hy |]. intros z Hz. simpl in Hz.
      exact (Hneg z y x Hz Hyx).
    + constructor; [exact IH |].
      rewrite (insert_sorted_perm less x r). constructor; assumption.
Qed.

(** The insertion sort keeps the promise of [sort.Slice]. *)
Lemma insertion_sort_contract : sort_contract insertion_sort.
Proof.
  intros A less l Hless. unfold insertion_sort. split.
  - induction l as [| x l IH]; simpl; [reflexivity |].
    rewrite insert_sorted_perm, IH. reflexivity.
  - apply StronglySorted_Sorted.
    induction l as [| x l IH]; simpl; [constructor |].
    apply insert_sorted_sorted; assumption.
Qed.

Lemma key_is_Some (langStats : gmap string LanguageStats) (lang : string) :
  lang ∈ (map_to_list langStats).*1 -> is_Some (langStats !! lang).
Proof.
  intros H. apply list_elem_of_fmap in H as ([k v] & -> & H).
  apply elem_of_map_to_list in H. simpl. rewrite H. eauto.
Qed.

Lemma rows_of_keys (langStats : gmap string LanguageStats) :
  rows_of langStats (map_to_list langStats).*1 = (map_to_list langStats).*2.
Proof.
  unfold rows_of.
  assert (H : forall k v, (k, v) ∈ map_to_list langStats -> langStats !! k = Some v)
    by (intros k v; apply elem_of_map_to_list).
  induction (map_to_list langStats) as [| [k v] l IH]; [reflexivity |].
  simpl. rewrite (H k v) by left. simpl. f_equal.
  apply IH. intros k' v' Hin. apply H. right. exact Hin.
Qed.

Lemma rows_of_perm (langStats : gmap string LanguageStats) (langs : list string) :
  langs ≡ₚ (map_to_list langStats).*1 ->
  rows_of langStats langs ≡ₚ (map_to_list langStats).*2.
Proof.
  intros H. rewrite <- rows_of_keys. unfold rows_of. rewrite H. reflexivity.
Qed.

Lemma rows_of_non_increasing (langStats : gmap string LanguageStats)
    (field : LanguageStats -> Z) (langs : list string) :
  StronglySorted (fun a b => field_of langStats field b <= field_of langStats field a) langs ->
  non_increasing field (rows_of langStats langs).
Proof.
  unfold non_increasing, rows_of.
  induction 1 as [| k rest Hrest IH Hk]; simpl; [constructor |].
  destruct (langStats !! k) as [stats |] eqn:E; simpl; [| exact IH].
  constructor; [exact IH |].
  apply Forall_forall. intros b Hb.
  apply list_elem_of_omap in Hb as (k' & Hk' & Eb).
  rewrite Forall_forall in Hk. specialize (Hk k' Hk').
  unfold field_of in Hk. rewrite E, Eb in Hk. exact Hk.
Qed.

Lemma print_rows_rows_of (render : LanguageStats -> string)
    (langStats : gmap string LanguageStats) (langs : list string) :
  (forall lang, lang ∈ langs -> is_Some (langStats !! lang)) ->
  print_rows render langStats langs
  = Some (concat_lines (map render (rows_of langStats langs))).
Proof.
  unfold rows_of. induction langs as [| lang rest IH]; intros H; [reflexivity |].
  destruct (H lang ltac:(left)) as [stats E].
  simpl. rewrite E. simpl. rewrite IH by (intros l Hl; apply H; right; exact Hl).
  reflexivity.
Qed.

Lemma PrintJSON_loop_rows_of (langStats : gmap string LanguageStats) (n i : Z)
    (langs : list string) :
  n = i + Z.of_nat (length langs) ->
  (forall lang, lang ∈ langs -> is_Some (langStats !! lang)) ->
  PrintJSON_loop langStats n i langs = Some (json_entries (rows_of langStats langs)).
Proof.
  unfold rows_of. revert i. induction langs as [| lang rest IH]; intros i Hn H;
    [reflexivity |].
  destruct (H lang ltac:(left)) as [stats E].
  assert (Hrest : forall l, l ∈ rest -> is_Some (langStats !! l))
    by (intros l Hl; apply H; right; exact Hl).
  cbn [PrintJSON_loop omap list_omap]. rewrite E. simpl.
  rewrite (IH (i + 1)) by (simpl in Hn; lia || exact Hrest). simpl.
  destruct rest as [| lang' rest'].
  - replace (i =? n - 1) with true by (symmetry; apply Z.eqb_eq; simpl in Hn; lia).
    simpl. rewrite append_nil_r. reflexivity.
  - replace (i =? n - 1) with false by (symmetry; apply Z.eqb_neq; simpl in Hn; lia).
    destruct (Hrest lang' ltac:(left)) as [stats' E']. simpl. rewrite E'. reflexivity.
Qed.

Section Tables.

Variable sort_Slice : forall A : Type, (A -> A -> bool) -> list A -> list A.
Hypothesis sort_Slice_sorts : sort_contract sort_Slice.

Lemma sorted_languages (langStats : gmap string LanguageStats)
    (field : LanguageStats -> Z) (visit : list string) :
  visit ≡ₚ (map_to_list langStats).*1 ->
  let langs := sort_Slice string
                 (fun a b => field_of langStats field a >? field_of langStats field b)
                 visit in
  (forall lang, lang ∈ langs -> is_Some (langStats !! lang))
  /\ rows_of langStats langs ≡ₚ (map_to_list langStats).*2
  /\ non_increasing field (rows_of langStats langs).
Proof.
  intros Hvisit langs.
  pose proof (greater_is_strict_weak_order (field_of langStats field)) as Hswo.
  destruct (sort_Slice_sorts string _ visit Hswo) as [Hperm Hsorted].
  fold langs in Hperm, Hsorted.
  split; [| split].
  - intros lang Hin. apply key_is_Some. rewrite <- Hvisit, <- Hperm. exact Hin.
  - apply rows_of_perm. rewrite Hperm. exact Hvisit.
  - apply rows_of_non_increasing.
    apply Sorted.Sorted_StronglySorted in Hsorted;
      [| exact (strict_weak_order_complement_transitive _ Hswo)].
    eapply StronglySorted_weaken; [| exact Hsorted].
    intros a b Hab. simpl in Hab. rewrite Z.gtb_ltb in Hab. apply Z.ltb_ge in Hab. exact Hab.
Qed.

(** C10.  Whatever the order in which the keys of the map are visited,
    [PrintResults], [PrintResultsFormatted] and [PrintJSON] print one entry
    per language of the map in non-increasing order of [CodeLines], and
    [PrintByFiles] in non-increasing order of [FileCount], between the fixed
    parts of each report. *)
Theorem C10_reports_list_languages_sorted
    (langStats : gmap string LanguageStats) (visit : list string)
    (total : LanguageStats) (processedFiles skippedFiles errorCount : Z) :
  visit ≡ₚ (map_to_list langStats).*1 ->
  lists_sorted_by CodeLines langStats
    (fun rows => table_of rows total processedFiles skippedFiles errorCount)
    (PrintResults sort_Slice langStats visit total processedFiles skippedFiles errorCount)
  /\ lists_sorted_by CodeLines langStats
    (fun rows => formatted_table_of rows total processedFiles skippedFiles errorCount)
    (PrintResultsFormatted sort_Slice langStats visit total
       processedFiles skippedFiles errorCount)
  /\ lists_sorted_by CodeLines langStats
    (fun rows => json_of rows total)
    (PrintJSON sort_Slice langStats visit total)
  /\ lists_sorted_by FileCount langStats
    (fun rows => table_of rows total processedFiles skippedFiles errorCount)
    (PrintByFiles sort_Slice langStats visit total processedFiles skippedFiles errorCount).
Proof.
  intros Hvisit.
  destruct (sorted_languages langStats CodeLines visit Hvisit) as (Hc1 & Hc2 & Hc3).
  destruct (sorted_languages langStats FileCount visit Hvisit) as (Hf1 & Hf2 & Hf3).
  unfold lists_sorted_by.
  split; [| split; [| split]].
  - exists (rows_of langStats (sortLanguagesByCode sort_Slice langStats visit)).
    split; [exact Hc2 | split; [exact Hc3 |]].
    unfold PrintResults, sortLanguagesByCode. cbv zeta.
    rewrite (print_rows_rows_of row _ _ Hc1). reflexivity.
  - exists (rows_of langStats (sortLanguagesByCode sort_Slice langStats visit)).
    split; [exact Hc2 | split; [exact Hc3 |]].
    unfold PrintResultsFormatted, sortLanguagesByCode. cbv zeta.
    rewrite (print_rows_rows_of formatted_row _ _ Hc1). reflexivity.
  - exists (rows_of langStats (sortLanguagesByCode sort_Slice langStats visit)).
    split; [exact Hc2 | split; [exact Hc3 |]].
    unfold PrintJSON, sortLanguagesByCode. cbv zeta.
    rewrite (PrintJSON_loop_rows_of langStats _ 0 _ (eq_sym (Z.add_0_l _)) Hc1).
    reflexivity.
  - eexists. split; [exact Hf2 | split; [exact Hf3 |]].
    unfold PrintByFiles. cbv zeta.
    rewrite (print_rows_rows_of row _ _ Hf1). reflexivity.
Qed.

End Tables.

(** C10 on a map of two languages, visited in the order C, Go: Go has more
    code and comes first, C has more files and comes first by files. *)
Lemma C10_reports_list_languages_sorted_witness :
  let go := mkLanguageStats "Go" 2 10 20 300 330 in
  let c := mkLanguageStats "C" 5 1 2 40 43 in
  let langStats : gmap string LanguageStats := list_to_map [("C", c); ("Go", go)] in
  lists_sorted_by CodeLines langStats (fun rows => json_of rows (mkLanguageStats "Total" 7 11 22 340 373))
    (PrintJSON insertion_sort langStats ["C"; "Go"] (mkLanguageStats "Total" 7 11 22 340 373)).
Proof.
  intros go c langStats.
  apply (C10_reports_list_languages_sorted insertion_sort insertion_sort_contract
           langStats ["C"; "Go"] (mkLanguageStats "Total" 7 11 22 340 373) 7 0 0).
  unfold langStats.
  rewrite (map_to_list_to_map (M := gmap string) [("C", c); ("Go", go)]).
  - reflexivity.
  - simpl. apply NoDup_cons. split; [| apply NoDup_singleton].
    intros H. apply list_elem_of_singleton in H. discriminate.
Defined.

End OutputFacts.

(** ** The line classifier *)

Module ClassifierFacts.
Import StringFacts Classifier.

Lemma starts_with_head (m : string) (c : ascii) (rest : string) :
  starts_with m (String c rest) = true -> headed_by c m = true.
Proof.
  destruct m as [| a m']; simpl; [discriminate |].
  destruct (ascii_dec a c) as [-> | N]; [| discriminate].
  intros _. apply Ascii.eqb_refl.
Qed.

Lemma starts_with_append (m rest : string) :
  m <> EmptyString -> starts_with m (m +:+ rest) = true.
Proof.
  intros H. destruct m as [| a m']; [congruence |].
  unfold starts_with. apply prefix_append.
Qed.

Lemma is_blank_append (a b : string) :
  is_blank (a +:+ b) = is_blank a && is_blank b.
Proof.
  induction a as [| x a IH]; [reflexivity |].
  rewrite app_cons. simpl. rewrite IH. apply andb_assoc.
Qed.

Lemma last_prev_some (c : ascii) (text : string) :
  last_prev (Some c) text = Some (last_char c text).
Proof. destruct text; reflexivity. Qed.

Section Descriptor.

Variable d : LanguageDescriptor.

Lemma plain_parts c :
  plain d c = true ->
  is_quote d c = false
  /\ ascii_eqb_opt (escapeChar d) c = false
  /\ existsb (headed_by c) (singleLineMarkers d) = false
  /\ existsb (fun oc => headed_by c (fst oc)) (blockDelimiters d) = false.
Proof.
  unfold plain. rewrite !andb_true_iff, !negb_true_iff. tauto.
Qed.

Lemma plain_not_quote c : plain d c = true -> is_quote d c = false.
Proof. intros H. apply plain_parts in H. tauto. Qed.

Lemma plain_not_escape c : plain d c = true -> escaped d (Some c) = false.
Proof.
  intros H. apply plain_parts in H as (_ & H & _).
  unfold escaped, ascii_eqb_opt in *.
  destruct (escapeChar d) as [e |]; [| reflexivity].
  rewrite Ascii.eqb_sym. exact H.
Qed.

Lemma plain_no_marker c rest :
  plain d c = true -> any_marker (singleLineMarkers d) (String c rest) = false.
Proof.
  intros H. apply plain_parts in H as (_ & _ & H & _). unfold any_marker.
  induction (singleLineMarkers d) as [| m ms IH]; [reflexivity |].
  cbn [existsb] in *. apply orb_false_iff in H as [Hm Hms].
  rewrite (IH Hms), orb_false_r.
  destruct (starts_with m (String c rest)) eqn:E; [| reflexivity].
  apply starts_with_head in E. congruence.
Qed.

Lemma plain_no_delimiter c rest :
  plain d c = true -> first_delimiter (blockDelimiters d) (String c rest) = None.
Proof.
  intros H. apply plain_parts in H as (_ & _ & _ & H).
  induction (blockDelimiters d) as [| [o cl] ds IH]; [reflexivity |].
  cbn [existsb first_delimiter fst] in *. apply orb_false_iff in H as [Ho Hds].
  destruct (starts_with o (String c rest)) eqn:E; [| exact (IH Hds)].
  apply starts_with_head in E. congruence.
Qed.

(** Plain characters outside strings and comments are passed over: they
    count as code unless they are white space. *)
Lemma scan_plain (pre rest : string) (s : LineScan) :
  all_plain d pre = true ->
  inBlockComment (state s) = false -> inString (state s) = false -> skip s = 0%nat ->
  scan d s (pre +:+ rest)
  = scan d {| state := state s; sawCode := sawCode s || negb (is_blank pre);
              sawComment := sawComment s; prev := last_prev (prev s) pre;
              skip := 0%nat |} rest.
Proof.
  revert s. induction pre as [| c pre IH]; intros s Hpre Hb Hs Hk.
  - destruct s as [st sc sm pv sk]. simpl in *. subst sk.
    rewrite orb_false_r. reflexivity.
  - cbn [all_plain] in Hpre. apply andb_true_iff in Hpre as [Hc Hpre].
    rewrite app_cons. cbn [scan]. rewrite Hk.
    unfold step. rewrite Hb, Hs. unfold step_normal.
    rewrite (plain_not_quote _ Hc), andb_false_l.
    rewrite (plain_no_marker _ _ Hc), (plain_no_delimiter _ _ Hc).
    destruct (escaped d (prev s));
      (rewrite IH by (assumption || reflexivity); cbn [with_prev state sawCode sawComment prev skip];
       f_equal; f_equal;
       [ cbn [is_blank]; rewrite negb_andb, orb_assoc; reflexivity
       | destruct pre; reflexivity ]).
Qed.

(** Inside a string region that the text does not close, everything is
    passed over, comment markers included. *)
Lemma scan_string (q : ascii) (body rest : string) (s : LineScan) :
  has_char q body = false ->
  inBlockComment (state s) = false -> inString (state s) = true ->
  stringQuote (state s) = Some q -> sawCode s = true -> skip s = 0%nat ->
  scan d s (body +:+ rest)
  = scan d {| state := state s; sawCode := true; sawComment := sawComment s;
              prev := last_prev (prev s) body; skip := 0%nat |} rest.
Proof.
  revert s. induction body as [| c body IH]; intros s Hq Hb Hs Hsq Hc Hk.
  - destruct s as [st sc sm pv sk]. simpl in *. subst. reflexivity.
  - cbn [has_char] in Hq. apply orb_false_iff in Hq as [Hqc Hq].
    rewrite app_cons. cbn [scan]. rewrite Hk.
    unfold step. rewrite Hb, Hs. unfold step_in_string.
    rewrite Hsq. cbn [ascii_eqb_opt]. rewrite Hqc, andb_false_l.
    rewrite IH by (assumption || reflexivity).
    cbn [with_prev state sawCode sawComment prev skip].
    f_equal. f_equal. destruct body; reflexivity.
Qed.

Lemma all_plain_last c r : all_plain d (String c r) = true -> plain d (last_char c r) = true.
Proof.
  revert c. induction r as [| x r IH]; intros c H; cbn [all_plain] in H;
    apply andb_true_iff in H as [Hc Hr]; [exact Hc |].
  cbn [last_char]. apply IH. exact Hr.
Qed.

Lemma not_escaped_after_plain (pre : string) :
  all_plain d pre = true -> escaped d (last_prev None pre) = false.
Proof.
  destruct pre as [| c r]; intros H; [reflexivity |].
  cbn [last_prev]. apply plain_not_escape, all_plain_last, H.
Qed.

(** The same, character by character: a string region that the text does
    not close leaves the state and the comment content seen as they were. *)
Lemma string_region_inert (q : ascii) (body rest : string) (s : LineScan) :
  has_char q body = false ->
  inBlockComment (state s) = false -> inString (state s) = true ->
  stringQuote (state s) = Some q -> skip s = 0%nat ->
  exists s', scan_chars d (String.length body) s (body +:+ rest) = Continue s'
             /\ state s' = state s /\ sawComment s' = sawComment s.
Proof.
  revert s. induction body as [| c body IH]; intros s Hq Hb Hs Hsq Hk.
  - exists s. auto.
  - cbn [has_char] in Hq. apply orb_false_iff in Hq as [Hqc Hq].
    rewrite app_cons. cbn [scan_chars String.length]. rewrite Hk.
    unfold step. rewrite Hb, Hs. unfold step_in_string.
    rewrite Hsq. cbn [ascii_eqb_opt]. rewrite Hqc, andb_false_l.
    unfold with_prev. cbn [state sawCode sawComment prev skip].
    destruct (IH {| state := state s; sawCode := true; sawComment := sawComment s;
                    prev := Some c; skip := 0%nat |})
      as (s' & Hrun & Hst & Hcm); try assumption; try reflexivity.
    exists s'. auto.
Qed.

(** C6.  Inside a string region, up to the next occurrence of its quote,
    the scan leaves the classifier state and the comment content seen as
    they were, whatever the characters are: no marker starts a comment
    there.  So a line made of plain code, a string region from a quote to
    the next unescaped occurrence of the same quote, and plain code again
    is Code, whatever the string holds, and the classifier is outside
    comments and strings afterwards. *)
Theorem C6_markers_inert_inside_strings :
  (forall (s : LineScan) (q : ascii) (body rest : string),
     inBlockComment (state s) = false -> inString (state s) = true ->
     stringQuote (state s) = Some q -> skip s = 0%nat ->
     has_char q body = false ->
     exists s', scan_chars d (String.length body) s (body +:+ rest) = Continue s'
                /\ state s' = state s /\ sawComment s' = sawComment s)
  /\ (forall (st : ClassifierState) (q : ascii) (pre body post : string),
        inBlockComment st = false -> inString st = false ->
        is_quote d q = true -> is_space q = false ->
        all_plain d pre = true -> all_plain d post = true ->
        has_char q body = false ->
        escaped d (Some (last_char q body)) = false ->
        let line := pre +:+ String q body +:+ String q post in
        fst (classify_line d st line) = Code
        /\ inBlockComment (snd (classify_line d st line)) = false
        /\ inString (snd (classify_line d st line)) = false).
Proof.
  split.
  { intros s q body rest Hb Hs Hsq Hk Hq. apply (string_region_inert q); assumption. }
  intros st q pre body post Hb Hs Hq Hsp Hpre Hpost Hbody Hesc line. subst line.
  unfold classify_line.
  rewrite is_blank_append, app_cons. cbn [is_blank]. rewrite Hsp.
  rewrite andb_false_l, andb_false_r, andb_false_l.
  unfold start_of_line.
  rewrite scan_plain by (assumption || reflexivity).
  cbn [state sawCode sawComment prev skip].
  cbn [scan skip].
  unfold step. cbn [state]. rewrite Hb, Hs. unfold step_normal.
  cbn [state sawCode sawComment prev skip].
  rewrite Hq, (not_escaped_after_plain pre Hpre). cbn [negb andb].
  unfold with_prev. cbn [state sawCode sawComment prev skip].
  rewrite (scan_string q) by (assumption || reflexivity).
  cbn [state sawCode sawComment prev skip]. rewrite last_prev_some.
  cbn [scan skip]. unfold step. cbn [state inBlockComment inString].
  unfold step_in_string.
  cbn [state stringQuote prev ascii_eqb_opt inBlockComment inString].
  rewrite Ascii.eqb_refl, Hesc. cbn [negb andb].
  unfold with_prev. cbn [state sawCode sawComment prev skip].
  rewrite <- (append_nil_r post).
  rewrite scan_plain by (assumption || reflexivity).
  cbn [scan sawComment state fst snd inBlockComment inString].
  auto.
Qed.

(** Comment content seen on a line stays seen. *)
Lemma step_keeps_comment (s : LineScan) (c : ascii) (text : string) :
  sawComment s = true ->
  match step d s c text with
  | Continue s' => sawComment s' = true
  | RestIsComment s' => sawComment s' = true
  end.
Proof.
  intros H. unfold step, step_in_comment, step_in_string, step_normal.
  repeat match goal with
         | |- context [if ?b then _ else _] => destruct b
         | |- context [match ?o with Some _ => _ | None => _ end] => destruct o
         | |- context [let (_, _) := ?x in _] => destruct x
         end; cbn [sawComment]; auto.
Qed.

Lemma scan_keeps_comment (text : string) (s : LineScan) :
  sawComment s = true -> sawComment (scan d s text) = true.
Proof.
  revert s. induction text as [| c text IH]; intros s H; [exact H |].
  cbn [scan]. destruct (skip s) as [| k].
  - pose proof (step_keeps_comment s c (String c text) H) as Hs.
    destruct (step d s c (String c text)) as [s' | s']; [| exact Hs].
    apply IH. exact Hs.
  - apply IH. exact H.
Qed.

Lemma any_marker_in (markers : list string) (m post : string) :
  In m markers -> m <> EmptyString -> any_marker markers (m +:+ post) = true.
Proof.
  intros Hin Hm. unfold any_marker. apply existsb_exists. exists m.
  split; [exact Hin | apply starts_with_append; exact Hm].
Qed.

Lemma first_delimiter_in (delims : list (string * string)) (m cl post : string) :
  In (m, cl) delims -> m <> EmptyString ->
  exists oc, first_delimiter delims (m +:+ post) = Some oc.
Proof.
  intros Hin Hm. induction delims as [| [o c] ds IH]; [destruct Hin |].
  cbn [first_delimiter]. destruct (starts_with o (m +:+ post)) eqn:E; [eauto |].
  destruct Hin as [Heq | Hin]; [| exact (IH Hin)].
  injection Heq as -> ->. rewrite starts_with_append in E by exact Hm. discriminate.
Qed.

(** At a comment token, outside a string, the scan sees comment content. *)
Lemma scan_at_token (m post : string) (s : LineScan) :
  m <> EmptyString ->
  no_quote d m = true ->
  In m (singleLineMarkers d)
  \/ ((exists cl, In (m, cl) (blockDelimiters d)) /\ escaped d (prev s) = false) ->
  sawComment s = true \/ (inString (state s) = false /\ skip s = 0%nat) ->
  sawComment (scan d s (m +:+ post)) = true.
Proof.
  intros Hm Hnq Htok Hs.
  destruct Hs as [Hs | [Hstr Hk]]; [apply scan_keeps_comment; exact Hs |].
  destruct m as [| c m']; [congruence |].
  cbn [no_quote] in Hnq. apply andb_true_iff in Hnq as [Hc _].
  apply negb_true_iff in Hc.
  rewrite app_cons. cbn [scan]. rewrite Hk. rewrite <- app_cons.
  unfold step. destruct (inBlockComment (state s)).
  { apply scan_keeps_comment. unfold with_prev, step_in_comment.
    repeat match goal with
           | |- context [if ?b then _ else _] => destruct b
           | |- context [match ?o with Some _ => _ | None => _ end] => destruct o
           | |- context [let (_, _) := ?x in _] => destruct x
           end; reflexivity. }
  rewrite Hstr. unfold step_normal. rewrite Hc, andb_false_l.
  destruct Htok as [Hin | [[cl Hin] Hesc]].
  - rewrite (any_marker_in _ _ _ Hin Hm). reflexivity.
  - destruct (any_marker (singleLineMarkers d) (String c m' +:+ post));
      [reflexivity |].
    rewrite Hesc.
    destruct (first_delimiter_in _ _ _ post Hin Hm) as [[o cl'] ->].
    apply scan_keeps_comment. reflexivity.
Qed.

(** The scan of a line goes through the scan of its first characters. *)
Lemma scan_split (pre rest : string) (s : LineScan) :
  scan d s (pre +:+ rest)
  = match scan_chars d (String.length pre) s (pre +:+ rest) with
    | Continue s' => scan d s' rest
    | RestIsComment s' => s'
    end.
Proof.
  revert s. induction pre as [| c pre IH]; intros s; [reflexivity |].
  rewrite app_cons. cbn [scan scan_chars String.length].
  destruct (skip s) as [| k]; [| apply IH].
  rewrite <- app_cons.
  destruct (step d s c (String c pre +:+ rest)) as [s' | s']; [apply IH | reflexivity].
Qed.

(** Characters are passed over only after a delimiter, which is comment
    content. *)
Lemma step_skips_in_comment (s : LineScan) (c : ascii) (text : string) :
  match step d s c text with
  | Continue s' => skip s' = 0%nat \/ sawComment s' = true
  | RestIsComment s' => sawComment s' = true
  end.
Proof.
  unfold step, step_in_comment, step_in_string, step_normal.
  repeat match goal with
         | |- context [if ?b then _ else _] => destruct b
         | |- context [match ?o with Some _ => _ | None => _ end] => destruct o
         | |- context [let (_, _) := ?x in _] => destruct x
         end; cbn [sawComment skip]; auto.
Qed.

Lemma scan_chars_stands (pre rest : string) (s : LineScan) :
  skip s = 0%nat \/ sawComment s = true ->
  match scan_chars d (String.length pre) s (pre +:+ rest) with
  | Continue s' =>
      (skip s' = 0%nat \/ sawComment s' = true) /\ prev s' = last_prev (prev s) pre
  | RestIsComment s' => sawComment s' = true
  end.
Proof.
  revert s. induction pre as [| c pre IH]; intros s Hs; [split; [exact Hs | reflexivity] |].
  rewrite app_cons. cbn [scan_chars String.length last_prev].
  rewrite <- last_prev_some.
  destruct (skip s) as [| k] eqn:Hk.
  - rewrite <- app_cons.
    pose proof (step_skips_in_comment s c (String c pre +:+ rest)) as Hstep.
    destruct (step d s c (String c pre +:+ rest)) as [s' | s']; [| exact Hstep].
    apply (IH (with_prev c s')). exact Hstep.
  - apply (IH {| state := state s; sawCode := sawCode s; sawComment := sawComment s;
                 prev := Some c; skip := k |}).
    right. destruct Hs as [Hs | Hs]; [discriminate | exact Hs].
Qed.

(** C7.  A line that is not blank and has a comment token outside string
    regions (a single-line marker, or an open delimiter that is not
    escaped) is Comment, whatever code stands before or after the token:
    comment content dominates code content. *)
Theorem C7_comment_dominates_code
    (st : ClassifierState) (pre m post : string) :
  is_blank (pre +:+ m +:+ post) = false ->
  m <> EmptyString ->
  no_quote d m = true ->
  outside_string d st pre (m +:+ post) ->
  In m (singleLineMarkers d)
  \/ ((exists cl, In (m, cl) (blockDelimiters d))
      /\ escaped d (last_prev None pre) = false) ->
  fst (classify_line d st (pre +:+ m +:+ post)) = Comment.
Proof.
  intros Hblank Hm Hnq Hout Htok. unfold classify_line.
  rewrite Hblank, andb_false_l. cbn [fst].
  rewrite scan_split.
  pose proof (scan_chars_stands pre (m +:+ post) (start_of_line st) ltac:(left; reflexivity))
    as Hstands.
  unfold outside_string in Hout.
  destruct (scan_chars d (String.length pre) (start_of_line st) (pre +:+ m +:+ post))
    as [s | s]; [| rewrite Hstands; reflexivity].
  destruct Hstands as [Hskip Hprev].
  rewrite (scan_at_token m post s Hm Hnq); [reflexivity | |].
  - destruct Htok as [Hin | [Hin Hesc]]; [left; exact Hin |].
    right. split; [exact Hin |]. rewrite Hprev. exact Hesc.
  - destruct Hskip as [Hk | Hc]; [| left; exact Hc].
    right. split; [exact (Hout s eq_refl) | exact Hk].
Qed.

End Descriptor.

(** C6 on the line of section 8, the assignment of the quoted address
    http://example.com to x, in C. *)
Lemma C6_markers_inert_inside_strings_witness :
  fst (classify_line c_like initial_state
         ("x = " +:+ String "034" "http://example.com" +:+ String "034" EmptyString))
  = Code.
Proof.
  apply (proj2 (C6_markers_inert_inside_strings c_like) initial_state "034"%char
           "x = " "http://example.com" EmptyString); reflexivity.
Defined.

(** C7 on the line of section 8, x := 1 // set x, in C. *)
Lemma C7_comment_dominates_code_witness :
  fst (classify_line c_like initial_state ("x := 1 " +:+ "//" +:+ " set x")) = Comment.
Proof.
  apply (C7_comment_dominates_code c_like initial_state "x := 1 " "//" " set x");
    try reflexivity.
  - discriminate.
  - intros s H. vm_compute in H. injection H as <-. reflexivity.
  - left. left. reflexivity.
Defined.

End ClassifierFacts.

(** ** The worker pool and the aggregator *)

Module ScanFacts.
Import Classifier Output Scan.

(** *** The line counts add up *)

Lemma tally_balanced tag r : balanced r -> balanced (tally tag r).
Proof. unfold balanced. destruct tag; simpl; lia. Qed.

Lemma count_loop_balanced d st r lines :
  balanced r -> balanced (count_loop d st r lines).
Proof.
  revert st r. induction lines as [| line rest IH]; intros st r H; [exact H |].
  cbn [count_loop]. destruct (classify_line d st line) as [tag st'].
  apply IH, tally_balanced, H.
Qed.

Lemma count_balanced p d lines : balanced (count p d lines).
Proof. apply count_loop_balanced. reflexivity. Qed.

Lemma add_record_balanced s r :
  stats_balanced s -> balanced r -> stats_balanced (add_record s r).
Proof. unfold stats_balanced, balanced. simpl. lia. Qed.

Lemma merge_balanced o a :
  sound o -> aggregate_balanced a -> aggregate_balanced (merge o a).
Proof.
  intros Ho [Hlang Htotal]. destruct o as [| r | e]; try (split; assumption).
  split; cbn [merge byLanguage grandTotal].
  - intros lang s. rewrite lookup_insert. case_decide as E.
    + intros [= <-]. apply add_record_balanced; [| exact Ho].
      destruct (byLanguage a !! language r) as [s0 |] eqn:E0; simpl.
      * exact (Hlang _ _ E0).
      * reflexivity.
    + apply Hlang.
  - apply add_record_balanced; assumption.
Qed.

(** *** Merging in any order *)

Lemma add_record_swap s r1 r2 :
  add_record (add_record s r1) r2 = add_record (add_record s r2) r1.
Proof. unfold add_record. simpl. f_equal; lia. Qed.

Lemma statistics_merge o a b :
  statistics a = statistics b -> statistics (merge o a) = statistics (merge o b).
Proof.
  destruct a, b. unfold statistics. simpl. intros [= -> -> -> -> ->].
  destruct o; reflexivity.
Qed.

Lemma byLanguage_swap (m : gmap string LanguageStats) r1 r2 :
  let m1 := <[language r1 :=
               add_record (default (zero_stats (language r1)) (m !! language r1)) r1]> m in
  let m2 := <[language r2 :=
               add_record (default (zero_stats (language r2)) (m !! language r2)) r2]> m in
  <[language r2 :=
     add_record (default (zero_stats (language r2)) (m1 !! language r2)) r2]> m1
  = <[language r1 :=
       add_record (default (zero_stats (language r1)) (m2 !! language r1)) r1]> m2.
Proof.
  intros m1 m2. subst m1 m2.
  destruct (decide (language r1 = language r2)) as [E | N].
  - rewrite E, !lookup_insert_eq, !insert_insert_eq. simpl.
    f_equal. apply add_record_swap.
  - rewrite (lookup_insert_ne _ (language r1) (language r2)) by exact N.
    rewrite (lookup_insert_ne _ (language r2) (language r1)) by (intros ?; apply N; congruence).
    apply insert_insert_ne. intros ?; apply N; congruence.
Qed.

Lemma merge_swap o1 o2 a :
  statistics (merge o1 (merge o2 a)) = statistics (merge o2 (merge o1 a)).
Proof.
  destruct o1 as [| r1 | e1], o2 as [| r2 | e2]; try reflexivity.
  unfold statistics. cbn [merge byLanguage grandTotal processedFiles skippedFiles errorCount].
  rewrite (byLanguage_swap (byLanguage a) r2 r1).
  rewrite (add_record_swap (grandTotal a) r2 r1). reflexivity.
Qed.

Lemma statistics_merge_all os a b :
  statistics a = statistics b ->
  statistics (merge_all os a) = statistics (merge_all os b).
Proof.
  revert a b. induction os as [| o os IH]; intros a b H; [exact H |].
  apply IH, statistics_merge, H.
Qed.

Lemma merge_all_perm os1 os2 :
  os1 ≡ₚ os2 -> forall a, statistics (merge_all os1 a) = statistics (merge_all os2 a).
Proof.
  induction 1 as [| o os1 os2 _ IH | o1 o2 os | os1 os2 os3 _ IH1 _ IH2]; intros a.
  - reflexivity.
  - exact (IH (merge o a)).
  - exact (statistics_merge_all os _ _ (merge_swap o1 o2 a)).
  - rewrite IH1. apply IH2.
Qed.

Lemma slot_taken (ws : list (option Outcome)) (w : nat) (o : Outcome) :
  ws !! w = Some None -> omap id (<[w := Some o]> ws) ≡ₚ o :: omap id ws.
Proof.
  revert w. induction ws as [| x ws IH]; intros w H; [discriminate |].
  destruct w as [| w]; simpl in *.
  - injection H as ->. reflexivity.
  - destruct x as [o' |]; simpl; rewrite (IH _ H); [apply Permutation_swap | reflexivity].
Qed.

Lemma slot_freed (ws : list (option Outcome)) (w : nat) (o : Outcome) :
  ws !! w = Some (Some o) -> omap id ws ≡ₚ o :: omap id (<[w := None]> ws).
Proof.
  revert w. induction ws as [| x ws IH]; intros w H; [discriminate |].
  destruct w as [| w]; simpl in *.
  - injection H as ->. reflexivity.
  - destruct x as [o' |]; simpl; rewrite (IH _ H); [apply Permutation_swap | reflexivity].
Qed.

Lemma idle_slots (ws : list (option Outcome)) :
  forallb idle ws = true -> omap id ws = [].
Proof.
  induction ws as [| x ws IH]; [reflexivity |].
  destruct x; simpl; [discriminate | exact IH].
Qed.

Section Pool.

Variable resolve : string -> option LanguageDescriptor.

Local Abbreviation process := (process resolve).
Local Abbreviation step := (step resolve).
Local Abbreviation run := (run resolve).

Lemma process_sound p content : sound (process p content).
Proof.
  unfold Scan.process. destruct (resolve p); [| exact I].
  destruct content; [apply count_balanced | exact I].
Qed.

Lemma step_balanced c s s' :
  step c s = Some s' -> pool_balanced s -> pool_balanced s'.
Proof.
  intros Hstep [Hagg Hw]. destruct c as [| w | w]; cbn [Scan.step] in Hstep.
  - destruct (pending s) as [| [p content | p cause] rest]; [discriminate | |];
      injection Hstep as <-; split; cbn [aggregate workers]; assumption.
  - destruct (workers s !! w) as [[o |] |] eqn:E; try discriminate.
    destruct (queue s) as [| [p content] rest]; [discriminate |].
    injection Hstep as <-. split; cbn [aggregate workers]; [exact Hagg |].
    intros w' o. rewrite list_lookup_insert by (eapply lookup_lt_Some; exact E).
    case_decide as Ew.
    + intros [= <-]. apply process_sound.
    + apply Hw.
  - destruct (workers s !! w) as [[o |] |] eqn:E; try discriminate.
    injection Hstep as <-. split; cbn [aggregate workers].
    + apply merge_balanced; [exact (Hw _ _ E) | exact Hagg].
    + intros w' o'. rewrite list_lookup_insert by (eapply lookup_lt_Some; exact E).
      case_decide as Ew; [discriminate | apply Hw].
Qed.

Lemma run_balanced schedule s s' :
  run schedule s = Some s' -> pool_balanced s -> pool_balanced s'.
Proof.
  revert s. induction schedule as [| c rest IH]; intros s Hrun Hs; cbn [Scan.run] in Hrun.
  - injection Hrun as <-. exact Hs.
  - destruct (step c s) as [s1 |] eqn:E; [| discriminate].
    exact (IH _ Hrun (step_balanced _ _ _ E Hs)).
Qed.

Lemma init_balanced n tree : pool_balanced (init n tree).
Proof.
  split; cbn [init aggregate workers].
  - split; [| reflexivity]. intros lang s H.
    unfold empty_aggregate in H. cbn [byLanguage] in H.
    rewrite lookup_empty in H. discriminate.
  - intros w o H. apply lookup_replicate in H as [H _]. discriminate.
Qed.

(** *** The final aggregate does not depend on the schedule *)

Local Abbreviation outcome_of := (outcome_of resolve).
Local Abbreviation owed := (owed resolve).
Local Abbreviation snapshot := (snapshot resolve).

(** What the aggregate will be once everything owed is merged. *)
Lemma step_keeps_outlook c s s' :
  step c s = Some s' ->
  statistics (merge_all (owed s') (aggregate s'))
  = statistics (merge_all (owed s) (aggregate s)).
Proof.
  intros Hstep. destruct c as [| w | w]; cbn [Scan.step] in Hstep.
  - destruct (pending s) as [| [p content | p cause] rest] eqn:E; [discriminate | |];
      injection Hstep as <-; unfold Scan.owed; cbn [pending queue workers aggregate];
      rewrite E.
    + apply merge_all_perm. rewrite map_app. cbn [map fst snd Scan.outcome_of].
      rewrite <- !app_assoc. cbn [app].
      rewrite !app_assoc. symmetry. apply Permutation_middle.
    + reflexivity.
  - destruct (workers s !! w) as [[o |] |] eqn:E; try discriminate.
    destruct (queue s) as [| [p content] rest] eqn:Q; [discriminate |].
    injection Hstep as <-. unfold Scan.owed. cbn [pending queue workers aggregate].
    rewrite Q. apply merge_all_perm. cbn [map fst snd].
    rewrite (slot_taken _ _ _ E).
    apply Permutation_app_head. symmetry. apply Permutation_middle.
  - destruct (workers s !! w) as [[o |] |] eqn:E; try discriminate.
    injection Hstep as <-. unfold Scan.owed. cbn [pending queue workers aggregate].
    change (merge_all ?l (merge o ?a)) with (merge_all (o :: l) a).
    apply merge_all_perm. rewrite (slot_freed _ _ _ E).
    rewrite !app_assoc. apply Permutation_middle.
Qed.

Lemma run_keeps_outlook schedule s s' :
  run schedule s = Some s' ->
  statistics (merge_all (owed s') (aggregate s'))
  = statistics (merge_all (owed s) (aggregate s)).
Proof.
  revert s. induction schedule as [| c rest IH]; intros s Hrun; cbn [Scan.run] in Hrun.
  - injection Hrun as <-. reflexivity.
  - destruct (step c s) as [s1 |] eqn:E; [| discriminate].
    rewrite (IH _ Hrun). exact (step_keeps_outlook _ _ _ E).
Qed.

Lemma quiescent_owes_nothing s : quiescent s = true -> owed s = [].
Proof.
  unfold quiescent, Scan.owed.
  destruct (pending s); [| discriminate]. destruct (queue s); [| discriminate].
  intros H. rewrite (idle_slots _ H). reflexivity.
Qed.

Lemma init_owes_the_tree n tree : owed (init n tree) = map outcome_of tree.
Proof.
  unfold Scan.owed. cbn [init pending queue workers map app].
  rewrite idle_slots, app_nil_r; [reflexivity |].
  induction n; [reflexivity | assumption].
Qed.

Lemma snapshot_statistics schedule n tree a :
  snapshot schedule n tree = Some a ->
  statistics a = statistics (merge_all (map outcome_of tree) empty_aggregate).
Proof.
  unfold Scan.snapshot. destruct (run schedule (init n tree)) as [s |] eqn:Hrun;
    [| discriminate].
  destruct (quiescent s) eqn:Hq; [| discriminate]. intros [= <-].
  pose proof (run_keeps_outlook _ _ _ Hrun) as H.
  rewrite (quiescent_owes_nothing _ Hq), init_owes_the_tree in H. exact H.
Qed.

Lemma sequential_run tree ws a :
  run (sequential tree)
      {| pending := tree; queue := []; workers := None :: ws; aggregate := a |}
  = Some {| pending := []; queue := []; workers := None :: ws;
            aggregate := merge_all (map outcome_of tree) a |}.
Proof.
  revert a. induction tree as [| [p content | p cause] rest IH]; intros a.
  - reflexivity.
  - cbn [sequential Scan.run Scan.step pending queue workers aggregate app
         lookup list_lookup insert list_insert]. apply IH.
  - cbn [sequential Scan.run Scan.step pending queue workers aggregate]. apply IH.
Qed.

(** C4.  The record the File Counter returns for a file has a total equal
    to the sum of its blank, comment and code lines; and in every state a
    scan can reach, under any schedule and with any number of workers, the
    statistics of every language and the grand total have it too, as has
    every record a worker holds. *)
Theorem C4_total_is_sum_of_kinds :
  (forall p d lines, balanced (count p d lines))
  /\ (forall n tree schedule s,
        run schedule (init n tree) = Some s ->
        aggregate_balanced (aggregate s)
        /\ (forall w r, workers s !! w = Some (Some (Counted r)) -> balanced r)).
Proof.
  split; [apply count_balanced |].
  intros n tree schedule s Hrun.
  destruct (run_balanced _ _ _ Hrun (init_balanced n tree)) as [Hagg Hw].
  split; [exact Hagg |]. intros w r H. exact (Hw _ _ H).
Qed.

(** C5.  For a tree, a pool of any positive size can run the scan to
    quiescence, and the statistics of the snapshots of any two runs, with
    any two pool sizes and any two schedules, are equal: the aggregate does
    not depend on the number of workers or on the order in which they
    finish. *)
Theorem C5_aggregate_independent_of_workers (tree : list Entry) :
  (forall k, snapshot (sequential tree) (S k) tree
             = Some (merge_all (map outcome_of tree) empty_aggregate))
  /\ (forall n1 n2 schedule1 schedule2 a1 a2,
        snapshot schedule1 n1 tree = Some a1 ->
        snapshot schedule2 n2 tree = Some a2 ->
        statistics a1 = statistics a2).
Proof.
  split.
  - intros k. unfold Scan.snapshot, init. cbn [replicate].
    rewrite sequential_run. unfold quiescent. cbn [pending queue workers forallb idle andb].
    replace (forallb idle (replicate k None)) with true; [reflexivity |].
    symmetry. induction k; [reflexivity | assumption].
  - intros n1 n2 schedule1 schedule2 a1 a2 H1 H2.
    rewrite (snapshot_statistics _ _ _ _ H1), (snapshot_statistics _ _ _ _ H2).
    reflexivity.
Qed.

End Pool.

(** C4 on a file of three lines, one of each kind. *)
Lemma C4_total_is_sum_of_kinds_witness :
  balanced (count "a.c" c_like ["int x;"; EmptyString; "// done"])
  /\ totalLines (count "a.c" c_like ["int x;"; EmptyString; "// done"]) = 3.
Proof.
  split.
  - apply (C4_total_is_sum_of_kinds (fun _ => Some c_like)).
  - reflexivity.
Defined.

(** C5 on a tree of three files and an unreadable directory: one worker
    taking the files in turn, and two workers of which the second finishes
    first, end with the same statistics. *)
Lemma C5_aggregate_independent_of_workers_witness :
  statistics <$> snapshot sample_resolve (sequential sample_tree) 1 sample_tree
  = statistics <$> snapshot sample_resolve sample_schedule 2 sample_tree
  /\ is_Some (snapshot sample_resolve sample_schedule 2 sample_tree).
Proof.
  destruct (snapshot sample_resolve (sequential sample_tree) 1 sample_tree) as [a1 |] eqn:E1;
    [| vm_compute in E1; discriminate].
  destruct (snapshot sample_resolve sample_schedule 2 sample_tree) as [a2 |] eqn:E2;
    [| vm_compute in E2; discriminate].
  split; [| eauto]. simpl. f_equal.
  exact (proj2 (C5_aggregate_independent_of_workers sample_resolve sample_tree)
           1%nat 2%nat (sequential sample_tree) sample_schedule a1 a2 E1 E2).
Defined.

End ScanFacts.

(** ** More on logger.go *)

Module LoggerRunsFacts.
Import GoInt GoIntFacts Logger LoggerFacts LoggerRuns.

Lemma is_out_record_tag k msg :
  is_out_record (tag k +:+ msg) = match k with SevError => false | _ => true end.
Proof. destruct k; try reflexivity; destruct msg; reflexivity. Qed.

(** X1.  Each writer only ever receives records of its own severities: the
    [out] writer those tagged DEBUG, INFO or WARN, the [errOut] writer those
    tagged ERROR, whatever the calls and the changes of level. *)
Theorem writers_keep_their_severities (cs : list Call) (lv : LogLevel) :
  Forall (fun r => is_out_record r = true) (logger (run cs (NewLogger lv)))
  /\ Forall (fun r => is_error_record r = true) (errorLog (run cs (NewLogger lv))).
Proof.
  assert (H : forall cs l,
             Forall (fun r => is_out_record r = true) (logger l)
             /\ Forall (fun r => is_error_record r = true) (errorLog l) ->
             Forall (fun r => is_out_record r = true) (logger (run cs l))
             /\ Forall (fun r => is_error_record r = true) (errorLog (run cs l))).
  { clear. induction cs as [| c cs IH]; intros l Hl; [exact Hl |].
    apply IH. destruct Hl as [Ho He].
    destruct c as [k msg | lv]; [| exact (conj Ho He)].
    destruct k; simpl; unfold Debug, Info, Warn, Error;
      match goal with |- context [?a <=? ?b] => destruct (a <=? b) end;
      simpl; split; try assumption; apply Forall_app; split; try assumption;
      repeat constructor.
    - exact (is_out_record_tag SevDebug msg).
    - exact (is_out_record_tag SevInfo msg).
    - exact (is_out_record_tag SevWarn msg).
    - exact (is_error_record_tag SevError msg). }
  apply H. split; constructor.
Qed.

(** X2.  Calls only append: what was written stays, in place; each call adds at
    most one record over the two writers; and a call that logs leaves the
    level as it was. *)
Theorem calls_only_append (cs : list Call) (l : Logger) :
  (exists out err,
     logger (run cs l) = logger l ++ out
     /\ errorLog (run cs l) = errorLog l ++ err
     /\ (length out + length err <= length cs)%nat)
  /\ (forallb is_log cs = true -> level (run cs l) = level l).
Proof.
  revert l. induction cs as [| c cs IH]; intros l.
  - split; [| reflexivity]. exists [], []. rewrite !app_nil_r. auto.
  - destruct (IH (call c l)) as [(out & err & Ho & He & Hn) Hlv].
    assert (Hc : exists o e,
               logger (call c l) = logger l ++ o /\ errorLog (call c l) = errorLog l ++ e
               /\ (length o + length e <= 1)%nat
               /\ (is_log c = true -> level (call c l) = level l)).
    { destruct c as [k msg | lv].
      - destruct k; simpl; unfold Debug, Info, Warn, Error;
          match goal with |- context [?a <=? ?b] => destruct (a <=? b) end; simpl;
          first [ exists [], []; rewrite !app_nil_r; auto; fail
                | eexists [_], []; rewrite !app_nil_r; auto; fail
                | eexists [], [_]; rewrite !app_nil_r; auto ].
      - exists [], []. simpl. rewrite !app_nil_r. repeat split; auto. discriminate. }
    destruct Hc as (o & e & Ho1 & He1 & Hn1 & Hlv1).
    split.
    + exists (o ++ out), (e ++ err). cbn [run fold_left]. fold (run cs (call c l)).
      rewrite Ho, He, Ho1, He1, !app_assoc, !length_app. simpl. repeat split; lia.
    + cbn [forallb]. intros H. apply andb_true_iff in H as [Hc Hcs].
      cbn [run fold_left]. fold (run cs (call c l)).
      rewrite (Hlv Hcs). exact (Hlv1 Hc).
Qed.

(** How two loggers stand when the second is at least as strict: it has
    written a subsequence of what the first has. *)
Lemma stricter_call (c : Call) (l1 l2 : Logger) :
  is_log c = true ->
  level l1 <= level l2 ->
  logger l2 `sublist_of` logger l1 -> errorLog l2 `sublist_of` errorLog l1 ->
  level (call c l1) <= level (call c l2)
  /\ logger (call c l2) `sublist_of` logger (call c l1)
  /\ errorLog (call c l2) `sublist_of` errorLog (call c l1).
Proof.
  intros Hc Hlv Ho He. destruct c as [k msg | lv]; [| discriminate].
  destruct k; simpl; unfold Debug, Info, Warn, Error;
    repeat match goal with
           | |- context [?a <=? ?b] => destruct (Z.leb_spec a b)
           end; simpl; repeat split;
    try assumption; try lia;
    first [ apply sublist_app; [assumption | reflexivity]
          | apply sublist_inserts_r; assumption
          | unfold LogLevelDebug, LogLevelInfo, LogLevelWarn, LogLevelError in *; lia ].
Qed.

(** X3.  Raising the level only removes records: with no change of level on the
    way, a logger created at a higher level writes, on each writer, a
    subsequence of what a logger created at a lower level writes for the
    same calls. *)
Theorem stricter_level_writes_subsequence (cs : list Call) (lv1 lv2 : LogLevel) :
  forallb is_log cs = true -> lv1 <= lv2 ->
  logger (run cs (NewLogger lv2)) `sublist_of` logger (run cs (NewLogger lv1))
  /\ errorLog (run cs (NewLogger lv2)) `sublist_of` errorLog (run cs (NewLogger lv1)).
Proof.
  intros Hcs Hlv.
  assert (H : forall cs l1 l2,
             forallb is_log cs = true ->
             level l1 <= level l2 ->
             logger l2 `sublist_of` logger l1 -> errorLog l2 `sublist_of` errorLog l1 ->
             logger (run cs l2) `sublist_of` logger (run cs l1)
             /\ errorLog (run cs l2) `sublist_of` errorLog (run cs l1)).
  { clear. induction cs as [| c cs IH]; intros l1 l2 Hcs Hlv Ho He; [auto |].
    cbn [forallb] in Hcs. apply andb_true_iff in Hcs as [Hc Hcs].
    destruct (stricter_call c l1 l2 Hc Hlv Ho He) as (Hlv' & Ho' & He').
    exact (IH _ _ Hcs Hlv' Ho' He'). }
  apply H; [exact Hcs | exact Hlv | reflexivity | reflexivity].
Qed.

Lemma stricter_level_writes_subsequence_witness :
  logger (run [CallLog SevDebug "d"; CallLog SevWarn "w"; CallLog SevError "e"]
              (NewLogger LogLevelWarn))
  `sublist_of`
  logger (run [CallLog SevDebug "d"; CallLog SevWarn "w"; CallLog SevError "e"]
              (NewLogger LogLevelDebug)).
Proof.
  apply (stricter_level_writes_subsequence
           [CallLog SevDebug "d"; CallLog SevWarn "w"; CallLog SevError "e"]
           LogLevelDebug LogLevelWarn); [reflexivity | vm_compute; discriminate].
Defined.

Lemma emitted_warnings_call (c : Call) (l : Logger) :
  is_log c = true ->
  level (call c l) = level l
  /\ emitted_warnings (call c l)
     = emitted_warnings l
       + (if level l <=? LogLevelWarn then Z.of_nat (calls_of SevWarn [c]) else 0)
  /\ emitted_errors (call c l)
     = emitted_errors l
       + (if level l <=? LogLevelError then Z.of_nat (calls_of SevError [c]) else 0).
Proof.
  intros Hc. destruct c as [k msg | lv]; [| discriminate].
  unfold emitted_warnings, emitted_errors, calls_of.
  destruct k; simpl; unfold Debug, Info, Warn, Error;
    repeat match goal with
           | |- context [?a <=? ?b] => destruct (Z.leb_spec a b)
           end; simpl; rewrite ?emitted_snoc;
    rewrite ?(is_warn_record_tag SevDebug), ?(is_warn_record_tag SevInfo),
            ?(is_warn_record_tag SevWarn), ?(is_error_record_tag SevError);
    repeat split; try lia;
    unfold LogLevelDebug, LogLevelInfo, LogLevelWarn, LogLevelError in *; lia.
Qed.

Lemma calls_of_cons k c cs : calls_of k (c :: cs) = (calls_of k [c] + calls_of k cs)%nat.
Proof.
  unfold calls_of. cbn [List.filter].
  destruct (match c with CallLog k' _ => same_severity k k' | CallSetLevel _ => false end);
    reflexivity.
Qed.

(** X4.  With no change of level on the way, a logger created at a level that
    lets warnings through has written one warning per call of [Warn], and a
    logger created above that level none; likewise for errors; the getters
    return these numbers as Go integers. *)
Theorem tallies_count_the_calls (cs : list Call) (lv : LogLevel) :
  forallb is_log cs = true ->
  GetWarnCount (run cs (NewLogger lv))
  = wrap_int (if lv <=? LogLevelWarn then Z.of_nat (calls_of SevWarn cs) else 0)
  /\ GetErrorCount (run cs (NewLogger lv))
     = wrap_int (if lv <=? LogLevelError then Z.of_nat (calls_of SevError cs) else 0).
Proof.
  intros Hcs.
  assert (H : forall cs l,
             forallb is_log cs = true ->
             emitted_warnings (run cs l)
             = emitted_warnings l
               + (if level l <=? LogLevelWarn then Z.of_nat (calls_of SevWarn cs) else 0)
             /\ emitted_errors (run cs l)
                = emitted_errors l
                  + (if level l <=? LogLevelError then Z.of_nat (calls_of SevError cs) else 0)).
  { clear. induction cs as [| c cs IH]; intros l Hcs.
    - unfold calls_of. simpl. destruct (_ <=? _), (_ <=? _); lia.
    - cbn [forallb] in Hcs. apply andb_true_iff in Hcs as [Hc Hcs].
      destruct (emitted_warnings_call c l Hc) as (Hlv & Hw & He).
      destruct (IH (call c l) Hcs) as [IHw IHe].
      cbn [run fold_left]. fold (run cs (call c l)).
      rewrite IHw, IHe, Hw, He, Hlv, !(calls_of_cons _ c cs).
      destruct (level l <=? LogLevelWarn), (level l <=? LogLevelError); lia. }
  destruct (H cs (NewLogger lv) Hcs) as [Hw He].
  destruct (tallies_match_run cs (NewLogger lv)) as [Cw Ce]; [split; reflexivity |].
  rewrite Cw, Ce, Hw, He. split; reflexivity.
Qed.

Lemma tallies_count_the_calls_witness :
  GetWarnCount
    (run [CallLog SevWarn "a"; CallLog SevInfo "b"; CallLog SevWarn "c"]
         (NewLogger LogLevelInfo)) = 2.
Proof.
  apply (tallies_count_the_calls
           [CallLog SevWarn "a"; CallLog SevInfo "b"; CallLog SevWarn "c"] LogLevelInfo).
  reflexivity.
Defined.

Section Errors.

Variable error : Type.
Variable os_IsPermission : error -> bool.
Variable fmt_v : error -> string.

Local Abbreviation LogFileError := (LogFileError error os_IsPermission fmt_v).
Local Abbreviation LogDirectoryError := (LogDirectoryError error os_IsPermission fmt_v).

(** X5.  Recording failures keeps the tallies in step with the records written,
    and never touches the level; the failure of a file and the failure of a
    directory with the same error move the tallies alike. *)
Theorem failures_keep_tallies_in_step (p q : string) (e : error) (dl : Logger) :
  (tallies_match dl ->
   tallies_match (LogFileError p e dl) /\ tallies_match (LogDirectoryError p e dl))
  /\ level (LogFileError p e dl) = level dl
  /\ level (LogDirectoryError p e dl) = level dl
  /\ GetWarnCount (LogFileError p e dl) = GetWarnCount (LogDirectoryError q e dl)
  /\ GetErrorCount (LogFileError p e dl) = GetErrorCount (LogDirectoryError q e dl).
Proof.
  unfold Logger.LogFileError, Logger.LogDirectoryError, IsPermissionError, LogWarn, LogError.
  destruct (os_IsPermission e).
  - split; [intros H; split; exact (tallies_match_call (CallLog SevWarn _) dl H) |].
    unfold Warn, GetWarnCount, GetErrorCount. destruct (level dl <=? LogLevelWarn); auto.
  - split; [intros H; split; exact (tallies_match_call (CallLog SevError _) dl H) |].
    unfold Error, GetWarnCount, GetErrorCount. destruct (level dl <=? LogLevelError); auto.
Qed.

End Errors.

Section Failures.

Variable error : Type.
Variable os_IsPermission : error -> bool.
Variable fmt_v : error -> string.

Local Abbreviation record_failure := (record_failure error os_IsPermission fmt_v).
Local Abbreviation record_failures := (record_failures error os_IsPermission fmt_v).
Local Abbreviation permission_failures := (permission_failures error os_IsPermission).
Local Abbreviation other_failures := (other_failures error os_IsPermission).

Lemma record_failure_tallies (f : LoggerRuns.Failure error) (dl : Logger) (w e : Z) :
  level dl <= LogLevelWarn ->
  warnCount dl = wrap_int w -> errorCount dl = wrap_int e ->
  level (record_failure f dl) = level dl
  /\ warnCount (record_failure f dl)
     = wrap_int (w + Z.of_nat (permission_failures [f]))
  /\ errorCount (record_failure f dl)
     = wrap_int (e + Z.of_nat (other_failures [f])).
Proof.
  intros Hlv Hw He.
  unfold LoggerRuns.record_failure, LogDirectoryError, LogFileError, IsPermissionError,
    LogWarn, LogError, LoggerRuns.permission_failures, LoggerRuns.other_failures.
  cbn [List.filter].
  destruct (os_IsPermission (cause error f)), (on_directory error f);
    unfold Warn, Error;
    rewrite ?(level_gate_true _ _ Hlv),
            ?(level_gate_true (level dl) LogLevelError)
      by (unfold LogLevelWarn, LogLevelError in *; lia);
    cbn [level warnCount errorCount negb length]; rewrite ?Hw, ?He, ?incr_wrap, ?Z.add_0_r;
    auto.
Qed.

Lemma filter_count_cons {A : Type} (P : A -> bool) (x : A) (xs : list A) :
  length (List.filter P (x :: xs))
  = (length (List.filter P [x]) + length (List.filter P xs))%nat.
Proof. cbn [List.filter]. destruct (P x); reflexivity. Qed.

(** X6.  On a new logger whose level lets warnings through, as the default
    logger is, every failure recorded is tallied: the warning tally is the
    number of permission failures and the error tally the number of the
    others (as Go integers), files and directories alike. *)
Theorem failures_are_all_tallied (fs : list (LoggerRuns.Failure error)) (lv : LogLevel) :
  lv <= LogLevelWarn ->
  GetWarnCount (record_failures fs (NewLogger lv))
  = wrap_int (Z.of_nat (permission_failures fs))
  /\ GetErrorCount (record_failures fs (NewLogger lv))
     = wrap_int (Z.of_nat (other_failures fs)).
Proof.
  intros Hlv.
  assert (H : forall fs dl w e,
             level dl <= LogLevelWarn ->
             warnCount dl = wrap_int w -> errorCount dl = wrap_int e ->
             warnCount (record_failures fs dl)
             = wrap_int (w + Z.of_nat (permission_failures fs))
             /\ errorCount (record_failures fs dl)
                = wrap_int (e + Z.of_nat (other_failures fs))).
  { clear. induction fs as [| f fs IH]; intros dl w e Hlv Hw He.
    - simpl. rewrite !Z.add_0_r. auto.
    - destruct (record_failure_tallies f dl w e Hlv Hw He) as (Hl & Hw' & He').
      cbn [LoggerRuns.record_failures fold_left].
      destruct (IH (record_failure f dl) _ _ ltac:(rewrite Hl; exact Hlv) Hw' He')
        as [IHw IHe].
      unfold LoggerRuns.record_failures in IHw, IHe. rewrite IHw, IHe.
      unfold LoggerRuns.permission_failures, LoggerRuns.other_failures.
      rewrite (filter_count_cons _ f fs),
              (filter_count_cons (fun f => negb (os_IsPermission (cause error f))) f fs).
      split; f_equal; lia. }
  apply (H fs (NewLogger lv) 0 0 Hlv); reflexivity.
Qed.

End Failures.

Lemma failures_are_all_tallied_witness :
  GetWarnCount
    (record_failures sample_error sample_IsPermission sample_Error
       [mkFailure sample_error false "a.go" (PathError "open" "a.go" ErrPermission);
        mkFailure sample_error true "gone" ErrNotExist;
        mkFailure sample_error true "private" ErrPermission]
       defaultLogger_init) = 2.
Proof.
  apply (failures_are_all_tallied sample_error sample_IsPermission sample_Error
           [mkFailure sample_error false "a.go" (PathError "open" "a.go" ErrPermission);
            mkFailure sample_error true "gone" ErrNotExist;
            mkFailure sample_error true "private" ErrPermission] LogLevelInfo).
  vm_compute. discriminate.
Defined.

End LoggerRunsFacts.

(** ** More on the report printer *)

Module OutputTextFacts.
Import GoInt GoIntFacts StringFacts Output OutputFacts OutputText.

(** *** [FormatNumber] on all integers *)

Lemma remove_commas_none (s : string) : occurs "," s = false -> remove_commas s = s.
Proof.
  induction s as [| c s IH]; intros H; [reflexivity |].
  cbn [occurs] in H. apply orb_false_iff in H as [Hc Hs].
  rewrite Ascii.eqb_sym in Hc. cbn [remove_commas]. rewrite Hc, (IH Hs). reflexivity.
Qed.

Lemma fmt_d_never_comma (n : Z) : occurs "," (fmt_d n) = false.
Proof. apply fmt_d_no_letter; [reflexivity | discriminate]. Qed.

Lemma FormatNumber_digits (n : Z) : remove_commas (FormatNumber n) = fmt_d n.
Proof.
  unfold FormatNumber. destruct (n <? 1000).
  - apply remove_commas_none, fmt_d_never_comma.
  - apply loop_remove_commas, fmt_d_never_comma.
Qed.

Lemma parse_fmt_d (n : Z) : parse_decimal (fmt_d n) = Some n.
Proof.
  unfold parse_decimal, fmt_d. rewrite NilZero.isi.
  - simpl. rewrite DecimalZ.of_to. reflexivity.
  - destruct n; simpl; try discriminate.
    intros [= H]. exact (DecimalPos.Unsigned.to_uint_nonnil _ H).
  - destruct n; simpl; try discriminate.
    intros [= H]. exact (DecimalPos.Unsigned.to_uint_nonnil _ H).
Qed.

(** X7.  Taking the commas out of [FormatNumber n] and reading the digits back
    gives [n], for every integer; so two different integers are never
    formatted alike. *)
Theorem FormatNumber_reads_back :
  (forall n : Z, parse_decimal (remove_commas (FormatNumber n)) = Some n)
  /\ (forall a b : Z, FormatNumber a = FormatNumber b -> a = b).
Proof.
  assert (H : forall n, parse_decimal (remove_commas (FormatNumber n)) = Some n)
    by (intros n; rewrite FormatNumber_digits; apply parse_fmt_d).
  split; [exact H |].
  intros a b E. pose proof (H a) as Ha. rewrite E, H in Ha. congruence.
Qed.

Lemma length_remove_commas (s : string) :
  String.length s = (String.length (remove_commas s) + count_commas s)%nat.
Proof.
  induction s as [| c s IH]; [reflexivity |].
  cbn [remove_commas count_commas String.length].
  destruct (Ascii.eqb c ","); cbn [String.length]; lia.
Qed.

(** X8.  For a non-negative [n] with [d] decimal digits, [FormatNumber n] holds
    [(d - 1) / 3] commas and so is [d + (d - 1) / 3] characters long. *)
Theorem FormatNumber_length (n : Z) :
  0 <= n ->
  let d := String.length (fmt_d n) in
  String.length (FormatNumber n) = (d + (d - 1) / 3)%nat
  /\ count_commas (FormatNumber n) = ((d - 1) / 3)%nat.
Proof.
  intros Hn d.
  assert (Hlen : String.length (FormatNumber n) = (d + (d - 1) / 3)%nat).
  { unfold FormatNumber. destruct (n <? 1000) eqn:E.
    - apply Z.ltb_lt in E. pose proof (fmt_d_small n ltac:(lia)) as Hs. fold d in Hs.
      zify. Z.to_euclidean_division_equations. lia.
    - subst d. destruct (fmt_d n) as [| c rest]; [reflexivity |].
      cbn [FormatNumber_loop]. simpl andb. cbv iota. cbn [String.length].
      rewrite (loop_length _ (0 + 1) rest) by (unfold len; simpl; lia).
      replace (S (String.length rest) - 1)%nat with (String.length rest) by lia.
      reflexivity. }
  split; [exact Hlen |].
  pose proof (length_remove_commas (FormatNumber n)) as H.
  rewrite FormatNumber_digits in H. fold d in H. lia.
Qed.

Lemma FormatNumber_length_witness :
  String.length (FormatNumber 1234567) = 9%nat /\ count_commas (FormatNumber 1234567) = 2%nat.
Proof. apply (FormatNumber_length 1234567). lia. Defined.

(** X9.  A negative number is printed as it is, sign first and without any
    comma, also from -1000 down. *)
Theorem FormatNumber_negative_plain (n : Z) :
  n < 0 ->
  FormatNumber n = fmt_d n
  /\ count_commas (FormatNumber n) = 0%nat
  /\ String.get 0 (FormatNumber n) = Some "-"%char.
Proof.
  intros Hn.
  assert (E : FormatNumber n = fmt_d n).
  { unfold FormatNumber. replace (n <? 1000) with true; [reflexivity |].
    symmetry. apply Z.ltb_lt. lia. }
  split; [exact E | split].
  - pose proof (length_remove_commas (FormatNumber n)) as H.
    rewrite FormatNumber_digits in H. rewrite E in *. lia.
  - rewrite E. destruct n; try lia. reflexivity.
Qed.

Lemma FormatNumber_negative_plain_witness :
  FormatNumber (-1234567) = fmt_d (-1234567).
Proof. apply (FormatNumber_negative_plain (-1234567)). lia. Defined.

(** *** Columns *)













(** *** Lines *)

Lemma count_char_append (c : ascii) (a b : string) :
  count_char c (a +:+ b) = (count_char c a + count_char c b)%nat.
Proof.
  induction a as [| x a IH]; [reflexivity |].
  rewrite app_cons. cbn [count_char]. rewrite IH. lia.
Qed.

Lemma line_ends_append (a b : string) :
  line_ends (a +:+ b) = (line_ends a + line_ends b)%nat.
Proof. apply count_char_append. Qed.

Lemma count_char_absent (c : ascii) (s : string) :
  occurs c s = false -> count_char c s = 0%nat.
Proof.
  induction s as [| x s IH]; intros H; [reflexivity |].
  cbn [occurs] in H. apply orb_false_iff in H as [Hx Hs].
  cbn [count_char]. rewrite Hx, (IH Hs). reflexivity.
Qed.

Lemma occurs_present (c : ascii) (s : string) :
  count_char c s = 0%nat -> occurs c s = false.
Proof.
  induction s as [| x s IH]; intros H; [reflexivity |].
  cbn [count_char] in H. cbn [occurs].
  destruct (Ascii.eqb c x); [simpl in H; lia |]. apply IH. simpl in H. exact H.
Qed.

Lemma line_ends_fmt_d (n : Z) : line_ends (fmt_d n) = 0%nat.
Proof. apply count_char_absent, fmt_d_no_letter; [reflexivity | discriminate]. Qed.

Lemma occurs_remove_commas (c : ascii) (s : string) :
  c <> ","%char -> occurs c (remove_commas s) = occurs c s.
Proof.
  intros Hc. induction s as [| x s IH]; [reflexivity |].
  cbn [remove_commas occurs]. destruct (Ascii.eqb_spec x ",") as [-> | Hx].
  - rewrite IH. destruct (Ascii.eqb_spec c ","); [congruence | reflexivity].
  - cbn [occurs]. rewrite IH. reflexivity.
Qed.

Lemma line_ends_FormatNumber (n : Z) : line_ends (FormatNumber n) = 0%nat.
Proof.
  apply count_char_absent.
  rewrite <- occurs_remove_commas by discriminate.
  rewrite FormatNumber_digits. apply fmt_d_no_letter; [reflexivity | discriminate].
Qed.

Lemma line_ends_Repeat (a : ascii) (k : nat) :
  a <> "010"%char -> line_ends (Repeat (String a EmptyString) k) = 0%nat.
Proof.
  intros Ha. induction k as [| k IH]; [reflexivity |].
  cbn [Repeat]. rewrite line_ends_append, IH. unfold line_ends. cbn [count_char].
  destruct (Ascii.eqb_spec "010" a); [congruence | reflexivity].
Qed.

Lemma line_ends_pad_left (w : Z) (s : string) : line_ends (pad_left w s) = line_ends s.
Proof.
  unfold pad_left. rewrite line_ends_append, (line_ends_Repeat " ") by discriminate.
  reflexivity.
Qed.

Lemma line_ends_pad_right (w : Z) (s : string) : line_ends (pad_right w s) = line_ends s.
Proof.
  unfold pad_right. rewrite line_ends_append, (line_ends_Repeat " ") by discriminate.
  lia.
Qed.

Lemma occurs_substring (c : ascii) (n k : nat) (s : string) :
  occurs c s = false -> occurs c (substring n k s) = false.
Proof.
  revert n k. induction s as [| x s IH]; intros n k H.
  - destruct n, k; reflexivity.
  - cbn [occurs] in H. apply orb_false_iff in H as [Hx Hs].
    destruct n as [| n]; [destruct k as [| k] |]; cbn [substring occurs];
      rewrite ?Hx, ?IH by exact Hs; reflexivity.
Qed.

Lemma line_ends_truncate (language : string) :
  line_ends language = 0%nat -> line_ends (truncate language) = 0%nat.
Proof.
  intros H. unfold truncate. destruct (len language >? colLanguage); [| exact H].
  rewrite line_ends_append. unfold line_ends at 1.
  rewrite count_char_absent; [reflexivity |].
  apply occurs_substring, occurs_present, H.
Qed.

Lemma line_ends_line (language c1 c2 c3 c4 c5 : string) :
  line_ends (pad_right colLanguage language +:+ " " +:+ pad_left colFiles c1 +:+ " "
             +:+ pad_left colBlank c2 +:+ " " +:+ pad_left colComment c3 +:+ " "
             +:+ pad_left colCode c4 +:+ " " +:+ pad_left colTotal c5 +:+ nl)
  = (line_ends language + line_ends c1 + line_ends c2 + line_ends c3
     + line_ends c4 + line_ends c5 + 1)%nat.
Proof.
  rewrite !line_ends_append, !line_ends_pad_left, line_ends_pad_right.
  change (line_ends " ") with 0%nat. change (line_ends nl) with 1%nat. lia.
Qed.

Lemma line_ends_printRow (language : string) (f b c co t : Z) :
  line_ends language = 0%nat -> line_ends (printRow language f b c co t) = 1%nat.
Proof.
  intros H. unfold printRow. cbv zeta.
  rewrite line_ends_line, !line_ends_fmt_d, (line_ends_truncate _ H). reflexivity.
Qed.

Lemma line_ends_formatted_line (language : string) (stats : LanguageStats) :
  line_ends language = 0%nat -> line_ends (formatted_line language stats) = 1%nat.
Proof.
  intros H. unfold formatted_line.
  rewrite line_ends_line, !line_ends_FormatNumber, H. reflexivity.
Qed.

Lemma line_ends_json_fields (stats : LanguageStats) : line_ends (json_fields stats) = 0%nat.
Proof.
  unfold json_fields. rewrite !line_ends_append, !line_ends_fmt_d. reflexivity.
Qed.

Lemma line_ends_json_entry (stats : LanguageStats) (comma : string) :
  line_ends (Language stats) = 0%nat -> line_ends comma = 0%nat ->
  line_ends (json_entry stats comma) = 1%nat.
Proof.
  intros H Hc. unfold json_entry.
  rewrite !line_ends_append, line_ends_json_fields, H, Hc. reflexivity.
Qed.

Lemma line_ends_printFooter (p s e : Z) :
  line_ends (printFooter p s e) = (6 + (if e >? 0 then 1 else 0))%nat.
Proof.
  unfold printFooter. rewrite !line_ends_append, !line_ends_fmt_d.
  destruct (e >? 0); [rewrite !line_ends_append, line_ends_fmt_d |]; reflexivity.
Qed.

Lemma line_ends_rows {A : Type} (render : A -> string) (rows : list A) :
  Forall (fun stats => line_ends (render stats) = 1%nat) rows ->
  line_ends (concat_lines (map render rows)) = length rows.
Proof.
  induction 1 as [| stats rows Hs _ IH]; [reflexivity |].
  cbn [map concat_lines fold_right length].
  change (String.append ?a ?b) with (a +:+ b).
  rewrite line_ends_append, Hs. unfold concat_lines in IH. rewrite IH. reflexivity.
Qed.

Lemma line_ends_json_entries (rows : list LanguageStats) :
  Forall (fun stats => line_ends (Language stats) = 0%nat) rows ->
  line_ends (json_entries rows) = length rows.
Proof.
  induction 1 as [| stats rows Hs Hrows IH]; [reflexivity |].
  cbn [json_entries length]. destruct rows as [| stats' rows'].
  - apply line_ends_json_entry; [exact Hs | reflexivity].
  - rewrite line_ends_append, (line_ends_json_entry _ _ Hs) by reflexivity.
    rewrite IH. reflexivity.
Qed.

Section Tables.

Variable sort_Slice : forall A : Type, (A -> A -> bool) -> list A -> list A.
Hypothesis sort_Slice_sorts : sort_contract sort_Slice.

(** X12.  Each report has one line per language of the map besides its fixed
    lines: 12 for the tables, one more when there are errors, and 5 for the
    JSON object; this when no language name holds a line end. *)
Theorem reports_have_one_line_per_language
    (langStats : gmap string LanguageStats) (visit : list string)
    (total : LanguageStats) (processedFiles skippedFiles errorCount : Z) :
  visit ≡ₚ (map_to_list langStats).*1 ->
  (forall lang stats, langStats !! lang = Some stats -> line_ends (Language stats) = 0%nat) ->
  let table_lines := (size langStats + 12 + (if errorCount >? 0 then 1 else 0))%nat in
  line_ends <$> PrintResults sort_Slice langStats visit total
                  processedFiles skippedFiles errorCount = Some table_lines
  /\ line_ends <$> PrintByFiles sort_Slice langStats visit total
                     processedFiles skippedFiles errorCount = Some table_lines
  /\ line_ends <$> PrintResultsFormatted sort_Slice langStats visit total
                     processedFiles skippedFiles errorCount = Some table_lines
  /\ line_ends <$> PrintJSON sort_Slice langStats visit total
     = Some (size langStats + 5)%nat.
Proof.
  intros Hvisit Hnames table_lines. subst table_lines.
  assert (Hrows : forall field,
            let langs := sort_Slice string
                           (fun a b => field_of langStats field a >? field_of langStats field b)
                           visit in
            (forall lang, lang ∈ langs -> is_Some (langStats !! lang))
            /\ length (rows_of langStats langs) = size langStats
            /\ Forall (fun stats => line_ends (Language stats) = 0%nat)
                      (rows_of langStats langs)).
  { intros field langs.
    destruct (sorted_languages sort_Slice sort_Slice_sorts langStats field visit Hvisit)
      as (H1 & H2 & _). fold langs in H1, H2.
    split; [exact H1 | split].
    - rewrite H2, length_fmap. apply length_map_to_list.
    - rewrite H2. apply Forall_forall. intros stats Hin.
      apply list_elem_of_fmap in Hin as ([k v] & -> & Hin).
      apply elem_of_map_to_list in Hin. exact (Hnames _ _ Hin). }
  assert (Hrow : forall rows,
            Forall (fun stats => line_ends (Language stats) = 0%nat) rows ->
            Forall (fun stats => line_ends (row stats) = 1%nat) rows
            /\ Forall (fun stats => line_ends (formatted_row stats) = 1%nat) rows).
  { intros rows H. split; eapply Forall_impl; try exact H; intros stats Hs.
    - apply line_ends_printRow. exact Hs.
    - apply line_ends_formatted_line, line_ends_truncate, Hs. }
  destruct (Hrows CodeLines) as (Hc1 & Hc2 & Hc3).
  destruct (Hrows FileCount) as (Hf1 & Hf2 & Hf3).
  assert (Htotal : forall f b c co t, line_ends (printRow "Total" f b c co t) = 1%nat)
    by (intros; apply line_ends_printRow; reflexivity).
  split; [| split; [| split]].
  - unfold PrintResults, sortLanguagesByCode. cbv zeta.
    rewrite (print_rows_rows_of row _ _ Hc1). cbn [fmap option_fmap option_map mbind option_bind].
    f_equal. rewrite !line_ends_append, Htotal, line_ends_printFooter.
    rewrite (line_ends_rows row) by (apply Hrow; exact Hc3). rewrite Hc2.
    change (line_ends printHeader) with 4%nat. change (line_ends printSeparator) with 1%nat.
    lia.
  - unfold PrintByFiles. cbv zeta.
    rewrite (print_rows_rows_of row _ _ Hf1). cbn [fmap option_fmap option_map mbind option_bind].
    f_equal. rewrite !line_ends_append, Htotal, line_ends_printFooter.
    rewrite (line_ends_rows row) by (apply Hrow; exact Hf3). rewrite Hf2.
    change (line_ends printHeader) with 4%nat. change (line_ends printSeparator) with 1%nat.
    lia.
  - unfold PrintResultsFormatted, sortLanguagesByCode. cbv zeta.
    rewrite (print_rows_rows_of formatted_row _ _ Hc1).
    cbn [fmap option_fmap option_map mbind option_bind].
    f_equal. rewrite !line_ends_append, line_ends_printFooter.
    rewrite (line_ends_formatted_line "Total") by reflexivity.
    rewrite (line_ends_rows formatted_row) by (apply Hrow; exact Hc3). rewrite Hc2.
    change (line_ends header_line) with 1%nat. change (line_ends printSeparator) with 1%nat.
    change (line_ends nl) with 1%nat. lia.
  - unfold PrintJSON, sortLanguagesByCode. cbv zeta.
    rewrite (PrintJSON_loop_rows_of langStats _ 0 _ (eq_sym (Z.add_0_l _)) Hc1).
    cbn [fmap option_fmap option_map mbind option_bind].
    f_equal. rewrite !line_ends_append, line_ends_json_fields.
    rewrite (line_ends_json_entries _ Hc3), Hc2.
    change (line_ends nl) with 1%nat. change (line_ends dq) with 0%nat. simpl. lia.
Qed.

End Tables.

Lemma reports_have_one_line_per_language_witness :
  let go := mkLanguageStats "Go" 2 10 20 300 330 in
  let c := mkLanguageStats "C" 5 1 2 40 43 in
  let langStats : gmap string LanguageStats := list_to_map [("C", c); ("Go", go)] in
  line_ends <$> PrintJSON insertion_sort langStats ["C"; "Go"]
                  (mkLanguageStats "Total" 7 11 22 340 373)
  = Some (size langStats + 5)%nat.
Proof.
  intros go c langStats.
  apply (reports_have_one_line_per_language insertion_sort insertion_sort_contract
           langStats ["C"; "Go"] (mkLanguageStats "Total" 7 11 22 340 373) 7 0 0).
  - unfold langStats.
    rewrite (map_to_list_to_map (M := gmap string) [("C", c); ("Go", go)]).
    + reflexivity.
    + simpl. apply NoDup_cons. split; [| apply NoDup_singleton].
      intros H. apply list_elem_of_singleton in H. discriminate.
  - intros lang stats H. unfold langStats in H.
    apply elem_of_list_to_map_2 in H.
    apply elem_of_cons in H as [[= _ ->] | H]; [reflexivity |].
    apply list_elem_of_singleton in H as [= _ ->]. reflexivity.
Defined.

Section Errors.

Variable error : Type.
Variable fmt_v : error -> string.

Local Abbreviation PrintErrors := (PrintErrors error fmt_v).
Local Abbreviation detailed_entry := (detailed_entry error fmt_v).

Lemma PrintErrors_layout (err : error) (rest : list error) :
  PrintErrors (err :: rest)
  = nl +:+ "Errors encountered:" +:+ nl
    +:+ concat_lines (map detailed_entry (take 10 (err :: rest)))
    +:+ (if (10 <? length (err :: rest))%nat
         then summary_line (Z.of_nat (length (err :: rest)) - 10) else EmptyString)
    +:+ nl.
Proof.
  unfold Output.PrintErrors.
  replace (Z.of_nat (length (err :: rest)) =? 0) with false
    by (symmetry; apply Z.eqb_neq; simpl; lia).
  rewrite PrintErrors_loop_capped by lia.
  rewrite !append_assoc. reflexivity.
Qed.

(** X13.  However many errors there are, [PrintErrors] prints at most 14 lines:
    none for an empty list, otherwise three fixed lines, one line for each
    of the first 10 errors and one more line when errors are left over;
    this when no error message holds a line end. *)
Theorem PrintErrors_prints_few_lines (errors : list error) :
  Forall (fun err => line_ends (fmt_v err) = 0%nat) errors ->
  line_ends (PrintErrors errors)
  = match errors with
    | [] => 0%nat
    | _ => (3 + Nat.min (length errors) 10 + (if (10 <? length errors)%nat then 1 else 0))%nat
    end
  /\ (line_ends (PrintErrors errors) <= 14)%nat.
Proof.
  intros Hmsg.
  assert (H : line_ends (PrintErrors errors)
              = match errors with
                | [] => 0%nat
                | _ => (3 + Nat.min (length errors) 10
                        + (if (10 <? length errors)%nat then 1 else 0))%nat
                end).
  { destruct errors as [| err rest]; [reflexivity |].
    rewrite PrintErrors_layout. rewrite !line_ends_append.
    rewrite (line_ends_rows detailed_entry).
    - rewrite length_take.
      change (line_ends nl) with 1%nat. change (line_ends "Errors encountered:") with 0%nat.
      destruct (10 <? length (err :: rest))%nat.
      + unfold summary_line. rewrite !line_ends_append, line_ends_fmt_d.
        change (line_ends nl) with 1%nat.
        change (line_ends "  ... and ") with 0%nat.
        change (line_ends " more errors") with 0%nat. lia.
      + change (line_ends EmptyString) with 0%nat. lia.
    - apply Forall_forall. intros e He.
      apply elem_of_take in He as (i & He & _). apply list_elem_of_lookup_2 in He.
      rewrite Forall_forall in Hmsg.
      unfold Output.detailed_entry. rewrite !line_ends_append, (Hmsg e He). reflexivity. }
  split; [exact H |]. rewrite H.
  destruct errors; [lia |]. destruct (10 <? _)%nat; lia.
Qed.

End Errors.

Lemma PrintErrors_prints_few_lines_witness :
  (line_ends (Output.PrintErrors Logger.sample_error Logger.sample_Error
                (replicate 25 Logger.ErrNotExist)) <= 14)%nat.
Proof.
  apply (PrintErrors_prints_few_lines Logger.sample_error Logger.sample_Error
           (replicate 25 Logger.ErrNotExist)).
  repeat constructor.
Defined.


End OutputTextFacts.
